(** * glow: followable links, focus highlighting and navigation history

    A shallow embedding of the pager's link subsystem (package [ui]:
    [pager_links.go], [pager_highlight.go] and the navigation part of
    [pager.go]) together with the properties its specification states.

    Go strings are byte sequences: they are modelled as lists of [ascii]
    (one [ascii] per byte).  Go [int]s and runes are modelled as [Z]; every
    integer computed here is bounded by a string length, so the 64-bit
    wrap-around never comes into play. *)

From Stdlib Require Import String Ascii ZArith List Bool Lia Sorted.
Import ListNotations.
Open Scope Z_scope.
Set Warnings "-register-all".

(** ** Go strings and slices *)

Definition gostring := list ascii.

(** A string literal as its bytes. *)
Definition bytes (s : string) : gostring := list_ascii_of_string s.

(** [s[i]] as an unsigned 8-bit value, and the conversion [byte(x)]. *)
Definition byteval (c : ascii) : Z := Z.of_N (N_of_ascii c).
Definition byteof (z : Z) : ascii := ascii_of_N (Z.to_N (z mod 256)).

Definition len {A : Type} (l : list A) : Z := Z.of_nat (length l).

(** [s[lo:]], [s[:hi]] and [s[lo:hi]]; Go panics when the bounds are not
    [0 <= lo <= hi <= len(s)], every use below is guarded accordingly. *)
Definition sliceFrom {A : Type} (s : list A) (lo : Z) : list A :=
  skipn (Z.to_nat lo) s.
Definition sliceTo {A : Type} (s : list A) (hi : Z) : list A :=
  firstn (Z.to_nat hi) s.
Definition slice {A : Type} (s : list A) (lo hi : Z) : list A :=
  sliceTo (sliceFrom s lo) (hi - lo).

(** [l[i]] for an index already known to be in range. *)
Definition elemAt (l : list Z) (i : Z) : Z := nth (Z.to_nat i) l 0.

Definition eqs (a b : gostring) : bool :=
  if list_eq_dec ascii_dec a b then true else false.

Definition chr (c : ascii) (x : ascii) : bool := Ascii.eqb x c.

(** ** unicode/utf8 *)

Module utf8.

Definition RuneError : Z := 0xFFFD.
Definition RuneSelf : Z := 0x80.
Definition MaxRune : Z := 0x10FFFF.
Definition UTFMax : Z := 4.
Definition surrogateMin : Z := 0xD800.
Definition surrogateMax : Z := 0xDFFF.

Definition tx : Z := 0x80.
Definition t2 : Z := 0xC0.
Definition t3 : Z := 0xE0.
Definition t4 : Z := 0xF0.
Definition maskx : Z := 0x3F.
Definition mask2 : Z := 0x1F.
Definition mask3 : Z := 0x0F.
Definition mask4 : Z := 0x07.
Definition rune1Max : Z := 0x7F.
Definition rune2Max : Z := 0x7FF.
Definition rune3Max : Z := 0xFFFF.
Definition locb : Z := 0x80.
Definition hicb : Z := 0xBF.

(** The table [first] with [acceptRanges] folded in: what the first byte of
    a sequence announces. *)
Inductive firstInfo : Type :=
| ASCII
| Invalid
| Lead (size lo hi : Z).

Definition first (s0 : ascii) : firstInfo :=
  let x := byteval s0 in
  if x <? 0x80 then ASCII
  else if x <? 0xC2 then Invalid
  else if x <? 0xE0 then Lead 2 locb hicb
  else if x =? 0xE0 then Lead 3 0xA0 hicb
  else if x =? 0xED then Lead 3 locb 0x9F
  else if x <? 0xF0 then Lead 3 locb hicb
  else if x =? 0xF0 then Lead 4 0x90 hicb
  else if x <? 0xF4 then Lead 4 locb hicb
  else if x =? 0xF4 then Lead 4 locb 0x8F
  else Invalid.

Definition outside (lo hi : Z) (c : ascii) : bool :=
  (byteval c <? lo) || (hi <? byteval c).

(** [utf8.DecodeRuneInString]: the first rune of [s] and its width in
    bytes; [(RuneError, 1)] for an invalid or short encoding and
    [(RuneError, 0)] for the empty string. *)
Definition DecodeRuneInString (s : gostring) : Z * Z :=
  match s with
  | [] => (RuneError, 0)
  | s0 :: tl =>
    match first s0 with
    | ASCII => (byteval s0, 1)
    | Invalid => (RuneError, 1)
    | Lead sz lo hi =>
      if len s <? sz then (RuneError, 1) else
      match tl with
      | [] => (RuneError, 1)
      | s1 :: tl1 =>
        if outside lo hi s1 then (RuneError, 1) else
        if sz <=? 2 then
          (Z.lor (Z.shiftl (Z.land (byteval s0) mask2) 6)
                 (Z.land (byteval s1) maskx), 2)
        else
        match tl1 with
        | [] => (RuneError, 1)
        | s2 :: tl2 =>
          if outside locb hicb s2 then (RuneError, 1) else
          if sz <=? 3 then
            (Z.lor (Z.lor (Z.shiftl (Z.land (byteval s0) mask3) 12)
                          (Z.shiftl (Z.land (byteval s1) maskx) 6))
                   (Z.land (byteval s2) maskx), 3)
          else
          match tl2 with
          | [] => (RuneError, 1)
          | s3 :: _ =>
            if outside locb hicb s3 then (RuneError, 1) else
            (Z.lor (Z.lor (Z.lor (Z.shiftl (Z.land (byteval s0) mask4) 18)
                                 (Z.shiftl (Z.land (byteval s1) maskx) 12))
                          (Z.shiftl (Z.land (byteval s2) maskx) 6))
                   (Z.land (byteval s3) maskx), 4)
          end
        end
      end
    end
  end.

(** [utf8.AppendRune] / [utf8.EncodeRune]: the UTF-8 encoding of [r];
    negative, out-of-range and surrogate values encode [RuneError]. *)
Definition encode3 (r : Z) : gostring :=
  [ byteof (Z.lor t3 (Z.shiftr r 12));
    byteof (Z.lor tx (Z.land (Z.shiftr r 6) maskx));
    byteof (Z.lor tx (Z.land r maskx)) ].

Definition EncodeRune (r : Z) : gostring :=
  if (0 <=? r) && (r <=? rune1Max) then [ byteof r ]
  else if (0 <=? r) && (r <=? rune2Max) then
    [ byteof (Z.lor t2 (Z.shiftr r 6));
      byteof (Z.lor tx (Z.land r maskx)) ]
  else if (r <? 0) || (MaxRune <? r)
          || ((surrogateMin <=? r) && (r <=? surrogateMax)) then
    encode3 RuneError
  else if r <=? rune3Max then encode3 r
  else
    [ byteof (Z.lor t4 (Z.shiftr r 18));
      byteof (Z.lor tx (Z.land (Z.shiftr r 12) maskx));
      byteof (Z.lor tx (Z.land (Z.shiftr r 6) maskx));
      byteof (Z.lor tx (Z.land r maskx)) ].

(** [utf8.ValidRune]: a code point that is not a surrogate half. *)
Definition ValidRune (r : Z) : bool :=
  ((0 <=? r) && (r <? surrogateMin)) || ((surrogateMax <? r) && (r <=? MaxRune)).

(** A continuation byte, [10xxxxxx]. *)
Definition isCont (c : ascii) : bool :=
  (locb <=? byteval c) && (byteval c <=? hicb).

(** The runes of [s] as [for _, r := range s] yields them, with their
    widths; [fuel] bounds the number of iterations, [len(s)] is enough
    because every iteration consumes at least one byte. *)
Fixpoint rangeLoop (fuel : nat) (s : gostring) : list (Z * Z) :=
  match fuel with
  | O => []
  | S fuel' =>
    match s with
    | [] => []
    | _ :: _ =>
      let '(r, size) := DecodeRuneInString s in
      (r, size) :: rangeLoop fuel' (sliceFrom s size)
    end
  end.

Definition range (s : gostring) : list (Z * Z) := rangeLoop (length s) s.

(** [utf8.RuneCountInString]: erroneous and short encodings count as
    single runes of width one. *)
Definition RuneCountInString (s : gostring) : Z := len (range s).

(** [utf8.RuneStart]. *)
Definition RuneStart (b : ascii) : bool :=
  negb (Z.land (byteval b) 0xC0 =? 0x80).

(** [utf8.DecodeLastRuneInString]. *)
Definition DecodeLastRuneInString (s : gostring) : Z * Z :=
  let end_ := len s in
  if end_ =? 0 then (RuneError, 0) else
  let start := end_ - 1 in
  let r := byteval (nth (Z.to_nat start) s zero) in
  if r <? RuneSelf then (r, 1) else
  let lim := Z.max 0 (end_ - UTFMax) in
  (* for start--; start >= lim; start-- { if RuneStart(s[start]) { break } } *)
  let start :=
    (fix back (n : nat) (start : Z) : Z :=
       match n with
       | O => start
       | S n' =>
         if start <? lim then start
         else if RuneStart (nth (Z.to_nat start) s zero) then start
         else back n' (start - 1)
       end) 4%nat (start - 1) in
  let start := Z.max 0 start in
  let '(r, size) := DecodeRuneInString (slice s start end_) in
  if negb (start + size =? end_) then (RuneError, 1) else (r, size).

(** [string(runes)]: the concatenated encodings. *)
Definition stringOfRunes (rs : list Z) : gostring :=
  flat_map EncodeRune rs.

End utf8.

(** ** unicode *)

Module unicode.

(** [unicode.IsSpace]: the Latin-1 spaces and the [White_Space] table. *)
Definition IsSpace (r : Z) : bool :=
  if (0 <=? r) && (r <=? 0xFF) then
    (r =? 9) || (r =? 10) || (r =? 11) || (r =? 12) || (r =? 13)
    || (r =? 0x20) || (r =? 0x85) || (r =? 0xA0)
  else
    (r =? 0x1680) || ((0x2000 <=? r) && (r <=? 0x200A))
    || (r =? 0x2028) || (r =? 0x2029) || (r =? 0x202F) || (r =? 0x205F)
    || (r =? 0x3000).

(** [unicode.ToLower]: ASCII is handled in the function itself, every
    other rune goes through the case tables, [table] here. *)
Definition ToLower (table : Z -> Z) (r : Z) : Z :=
  if (0 <=? r) && (r <=? 0x7F) then
    if (65 <=? r) && (r <=? 90) then r + 32 else r
  else table r.

End unicode.

(** ** strings *)

Module strings.

Fixpoint HasPrefix (s prefix : gostring) : bool :=
  match prefix, s with
  | [], _ => true
  | _ :: _, [] => false
  | p :: prefix', c :: s' => Ascii.eqb c p && HasPrefix s' prefix'
  end.

Definition HasSuffix (s suffix : gostring) : bool :=
  (len suffix <=? len s) && eqs (sliceFrom s (len s - len suffix)) suffix.

(** [strings.Index]: the index of the first instance of [substr] in [s],
    or [-1]. *)
Fixpoint indexFrom (i : Z) (s substr : gostring) : Z :=
  if HasPrefix s substr then i
  else match s with
       | [] => -1
       | _ :: s' => indexFrom (i + 1) s' substr
       end.

Definition Index (s substr : gostring) : Z := indexFrom 0 s substr.

Definition Contains (s substr : gostring) : bool := 0 <=? Index s substr.

(** [strings.Cut]. *)
Definition Cut (s sep : gostring) : gostring * gostring * bool :=
  let i := Index s sep in
  if 0 <=? i then (sliceTo s i, sliceFrom s (i + len sep), true)
  else (s, [], false).

(** [strings.Trim] for a cutset of ASCII bytes (the only kind used here):
    every leading and every trailing byte of [s] that belongs to [cutset]
    is removed. *)
Definition inSet (cutset : gostring) (c : ascii) : bool :=
  existsb (Ascii.eqb c) cutset.

Fixpoint trimLeftASCII (s cutset : gostring) : gostring :=
  match s with
  | [] => []
  | c :: s' => if inSet cutset c then trimLeftASCII s' cutset else s
  end.

Definition trimRightASCII (s cutset : gostring) : gostring :=
  rev (trimLeftASCII (rev s) cutset).

Definition Trim (s cutset : gostring) : gostring :=
  trimLeftASCII (trimRightASCII s cutset) cutset.

(** [strings.TrimLeftFunc] and [strings.TrimRightFunc]. *)
Fixpoint trimLeftLoop (fuel : nat) (f : Z -> bool) (s : gostring) : gostring :=
  match fuel with
  | O => []
  | S fuel' =>
    match s with
    | [] => []
    | _ :: _ =>
      let '(r, size) := utf8.DecodeRuneInString s in
      if f r then trimLeftLoop fuel' f (sliceFrom s size) else s
    end
  end.

Definition TrimLeftFunc (s : gostring) (f : Z -> bool) : gostring :=
  trimLeftLoop (length s) f s.

(** [lastIndexFunc(s, f, false)]: the start of the last rune that does not
    satisfy [f], or [-1]. *)
Fixpoint lastIndexNot (fuel : nat) (f : Z -> bool) (s : gostring) (i : Z) : Z :=
  match fuel with
  | O => -1
  | S fuel' =>
    if i <=? 0 then -1 else
    let '(r, size) := utf8.DecodeLastRuneInString (sliceTo s i) in
    let i := i - size in
    if negb (f r) then i else lastIndexNot fuel' f s i
  end.

Definition TrimRightFunc (s : gostring) (f : Z -> bool) : gostring :=
  let i := lastIndexNot (length s) f s (len s) in
  let i :=
    if (0 <=? i) && (utf8.RuneSelf <=? byteval (nth (Z.to_nat i) s zero))
    then i + snd (utf8.DecodeRuneInString (sliceFrom s i))
    else i + 1 in
  sliceTo s i.

Definition TrimFunc (s : gostring) (f : Z -> bool) : gostring :=
  TrimRightFunc (TrimLeftFunc s f) f.

Definition asciiSpace (c : ascii) : bool :=
  let x := byteval c in
  (x =? 9) || (x =? 10) || (x =? 11) || (x =? 12) || (x =? 13) || (x =? 32).

(** [strings.TrimSpace]: the ASCII fast path from both ends, handing over
    to the Unicode-aware functions at the first non-ASCII byte. *)
Fixpoint trimSpaceRight (r : gostring) : gostring :=
  match r with
  | [] => []
  | c :: r' =>
    if utf8.RuneSelf <=? byteval c then TrimRightFunc (rev r) unicode.IsSpace
    else if asciiSpace c then trimSpaceRight r'
    else rev r
  end.

Fixpoint TrimSpace (s : gostring) : gostring :=
  match s with
  | [] => []
  | c :: s' =>
    if utf8.RuneSelf <=? byteval c then TrimFunc s unicode.IsSpace
    else if asciiSpace c then TrimSpace s'
    else trimSpaceRight (rev s)
  end.

(** [strings.Map]: every rune of [s] is replaced by its image, a negative
    image drops the rune; an invalid byte is read as [RuneError]. *)
Definition Map (mapping : Z -> Z) (s : gostring) : gostring :=
  flat_map (fun '(c, _) =>
              let r := mapping c in
              if 0 <=? r then utf8.EncodeRune r else [])
           (utf8.range s).

Definition lowerByte (c : ascii) : ascii :=
  let x := byteval c in
  if (65 <=? x) && (x <=? 90) then byteof (x + 32) else c.

(** [strings.ToLower]: bytewise on an all-ASCII string, otherwise
    [Map(unicode.ToLower, s)]. *)
Definition ToLower (table : Z -> Z) (s : gostring) : gostring :=
  if forallb (fun c => byteval c <? utf8.RuneSelf) s then map lowerByte s
  else Map (unicode.ToLower table) s.

End strings.

(** ** net/url *)

Module url.

Definition ishex (c : ascii) : bool :=
  let x := byteval c in
  ((48 <=? x) && (x <=? 57)) || ((97 <=? x) && (x <=? 102))
  || ((65 <=? x) && (x <=? 70)).

Definition unhex (c : ascii) : Z :=
  let x := byteval c in
  if (48 <=? x) && (x <=? 57) then x - 48
  else if (97 <=? x) && (x <=? 102) then x - 97 + 10
  else if (65 <=? x) && (x <=? 70) then x - 65 + 10
  else 0.

(** [url.PathUnescape]: each [%XX] becomes the byte it names; [None] is the
    [EscapeError] returned when a [%] is not followed by two hexadecimal
    digits.  In path-segment mode [+] stays [+]. *)
Fixpoint PathUnescape (s : gostring) : option gostring :=
  match s with
  | [] => Some []
  | c :: s' =>
    if chr "%" c then
      match s' with
      | h1 :: h2 :: s'' =>
        if ishex h1 && ishex h2 then
          match PathUnescape s'' with
          | Some t => Some (byteof (Z.lor (Z.shiftl (unhex h1) 4) (unhex h2)) :: t)
          | None => None
          end
        else None
      | _ => None
      end
    else
      match PathUnescape s' with
      | Some t => Some (c :: t)
      | None => None
      end
  end.

End url.

(** ** The collaborators outside the package *)

(** A Go [(T, error)] result; the error carries its message. *)
Inductive result (A : Type) : Type :=
| Ok (a : A)
| Err (msg : gostring).
Arguments Ok {A} a.
Arguments Err {A} msg.

(** What [os.Stat] tells about a path: whether [info.Mode().IsRegular()]. *)
Record FileInfo : Type := { IsRegular : bool }.

(** The parse tree goldmark returns, reduced to what the extractor looks
    at: link nodes with their destination, text nodes with the bytes of
    their segment, and every other kind of node (paragraphs, emphasis,
    images, autolinks, code spans, ...). *)
Inductive node : Type :=
| Link (Destination : gostring) (children : list node)
| Text (value : gostring)
| Other (children : list node).

(** The platform and the libraries the package calls but does not define:
    [path/filepath] and [os] (which depend on the operating system and on
    the state of the file system), the Unicode case tables, goldmark's
    parser, and [stripAbsolutePath], a helper of the package whose source
    is in another file. *)
Class Extern : Type := {
  filepath_Dir : gostring -> gostring;
  filepath_Join : gostring -> gostring -> gostring;
  filepath_Clean : gostring -> gostring;
  filepath_IsAbs : gostring -> bool;
  filepath_Abs : gostring -> result gostring;
  filepath_EvalSymlinks : gostring -> result gostring;
  filepath_Rel : gostring -> gostring -> result gostring;
  os_Stat : gostring -> result FileInfo;
  os_PathSeparator : ascii;
  unicode_caseTable : Z -> Z;
  goldmark_Parse : gostring -> node;
  stripAbsolutePath : gostring -> gostring -> gostring
}.

(** ** pager_links.go *)

Record followableLink : Type := {
  Href : gostring;
  Path : gostring;
  Fragment : gostring;
  Label : gostring;
  ResolvedPath : gostring;
  ResolvedNote : gostring
}.

(** The zero value [followableLink{}]. *)
Definition noLink : followableLink :=
  {| Href := []; Path := []; Fragment := []; Label := [];
     ResolvedPath := []; ResolvedNote := [] |}.

Record rawLink : Type := { href : gostring; label : gostring }.

Definition splitFragment (href : gostring) : gostring * gostring :=
  let '(path, frag, ok) := strings.Cut href (bytes "#") in
  if ok then (path, frag) else (href, []).

Section Links.
Context {E : Extern}.

Definition isAbsoluteOrUNCPath (path : gostring) : bool :=
  if strings.HasPrefix path (bytes "/") then true
  else if strings.HasPrefix path (bytes "\\") then true
  else if
    match path with
    | c0 :: c1 :: _ =>
      let x := byteval c0 in
      (((97 <=? x) && (x <=? 122)) || ((65 <=? x) && (x <=? 90)))
      && chr ":" c1
    | _ => false
    end
  then true
  else filepath_IsAbs path.

Definition isFollowableHref (href : gostring) : bool :=
  let href := strings.TrimSpace href in
  let href := strings.Trim href (bytes "<>") in
  let hrefLower := strings.ToLower unicode_caseTable href in
  if strings.Contains href (bytes "://")
     || strings.HasPrefix hrefLower (bytes "mailto:") then false
  else
    let '(path, _) := splitFragment href in
    if isAbsoluteOrUNCPath path then false
    else
      let pathLower := strings.ToLower unicode_caseTable path in
      strings.HasSuffix pathLower (bytes ".md")
      || strings.HasSuffix pathLower (bytes ".markdown").

(** The inner walk of [extractRawLinks]: the bytes of every text node
    below [n], in document order. *)
Fixpoint textOf (n : node) : gostring :=
  match n with
  | Text value => value
  | Link _ children => flat_map textOf children
  | Other children => flat_map textOf children
  end.

(** The outer walk: every link node with a non-empty destination, in the
    pre-order [ast.Walk] visits the tree in. *)
Fixpoint walkLinks (n : node) : list rawLink :=
  match n with
  | Link Destination children =>
    let href := strings.TrimSpace Destination in
    (if eqs href [] then []
     else [ {| href := href; label := strings.TrimSpace (textOf n) |} ])
    ++ flat_map walkLinks children
  | Text _ => []
  | Other children => flat_map walkLinks children
  end.

Definition extractRawLinks (markdown : gostring) : list rawLink :=
  walkLinks (goldmark_Parse markdown).

(** Lines 156-197 of [resolveFollowableLink]: what happens to the decoded
    path. *)
Definition resolvePath (rootDir currentFilePath href path frag : gostring)
  : followableLink * bool * option gostring :=
  let base := filepath_Dir currentFilePath in
  let resolved := filepath_Clean (filepath_Join base path) in
  match filepath_Abs rootDir with
  | Err err => (noLink, false, Some (bytes "abs root dir: " ++ err))
  | Ok rootAbs =>
    match filepath_Abs resolved with
    | Err err => (noLink, false, Some (bytes "abs resolved path: " ++ err))
    | Ok resAbs =>
      let rootAbs :=
        match filepath_EvalSymlinks rootAbs with
        | Ok rootEval => rootEval
        | Err _ => rootAbs
        end in
      let resAbs :=
        match filepath_EvalSymlinks resAbs with
        | Ok resEval => resEval
        | Err _ => resAbs
        end in
      match filepath_Rel rootAbs resAbs with
      | Err _ => (noLink, false, None)
      | Ok rel =>
        if eqs rel (bytes "..")
           || strings.HasPrefix rel (bytes ".." ++ [os_PathSeparator])
        then (noLink, false, None)
        else
          match os_Stat resAbs with
          | Err _ => (noLink, false, None)
          | Ok info =>
            if negb (IsRegular info) then (noLink, false, None)
            else
              ({| Href := href; Path := path; Fragment := frag;
                  Label := [];
                  ResolvedPath := resAbs;
                  ResolvedNote := stripAbsolutePath resAbs rootAbs |},
               true, None)
          end
      end
    end
  end.

(** Lines 150-154: the path is percent-decoded when it contains a [%] and
    decodes without error. *)
Definition decodePath (path : gostring) : gostring :=
  if strings.Contains path (bytes "%") then
    match url.PathUnescape path with
    | Some decoded => decoded
    | None => path
    end
  else path.

Definition resolveFollowableLink (rootDir currentFilePath href : gostring)
  : followableLink * bool * option gostring :=
  let href := strings.TrimSpace href in
  let href := strings.Trim href (bytes "<>") in
  if negb (isFollowableHref href) then (noLink, false, None)
  else
    let '(path, frag) := splitFragment href in
    let path := strings.TrimSpace path in
    if eqs path [] then (noLink, false, None)
    else
      let path := decodePath path in
      resolvePath rootDir currentFilePath href path frag.

Definition withLabel (link : followableLink) (l : gostring) : followableLink :=
  {| Href := Href link; Path := Path link; Fragment := Fragment link;
     Label := l;
     ResolvedPath := ResolvedPath link; ResolvedNote := ResolvedNote link |}.

(** The loop of [followableLinksForDocument] over the raw links still to
    be resolved; [out] is built front to back. *)
Fixpoint resolveAll (rootDir currentFilePath : gostring) (raw : list rawLink)
  : list followableLink * option gostring :=
  match raw with
  | [] => ([], None)
  | l :: raw' =>
    match resolveFollowableLink rootDir currentFilePath (href l) with
    | (_, _, Some err) => ([], Some err)
    | (link, ok, None) =>
      match resolveAll rootDir currentFilePath raw' with
      | (_, Some err) => ([], Some err)
      | (out, None) =>
        if negb ok then (out, None)
        else if eqs (strings.TrimSpace (label l)) [] then (out, None)
        else (withLabel link (label l) :: out, None)
      end
    end
  end.

Definition followableLinksForDocument (rootDir currentFilePath markdown : gostring)
  : list followableLink * option gostring :=
  resolveAll rootDir currentFilePath (extractRawLinks markdown).

End Links.

(** ** pager_highlight.go *)

Definition ESC : ascii := "027"%char.

(** The inner loop of [printableRunesAndOffsets]: from index [i], consume
    bytes up to and including the first one in [0x40..0x7E]; returns the
    index reached and the bytes left. *)
Fixpoint skipSequence (i : Z) (rest : gostring) : Z * gostring :=
  match rest with
  | [] => (i, [])
  | c :: rest' =>
    if (0x40 <=? byteval c) && (byteval c <=? 0x7E) then (i + 1, rest')
    else skipSequence (i + 1) rest'
  end.

(** [s[i] == 0x1b && i+1 < len(s) && s[i+1] == '['], on [rest = s[i:]]. *)
Definition startsSequence (rest : gostring) : bool :=
  match rest with
  | c0 :: c1 :: _ => chr ESC c0 && chr "[" c1
  | _ => false
  end.

(** The printable rune at the head of [rest] and its width: an invalid
    byte stands for itself. *)
Definition printableRune (rest : gostring) : Z * Z :=
  let '(r, size) := utf8.DecodeRuneInString rest in
  if (r =? utf8.RuneError) && (size =? 1)
  then (byteval (hd zero rest), 1)
  else (r, size).

(** The outer loop, at index [i] with [rest = s[i:]]; the runes and
    offsets appended from here on.  Every iteration advances [i], so
    [len(rest)] iterations are enough. *)
Fixpoint scanLoop (fuel : nat) (i : Z) (rest : gostring) : list Z * list Z :=
  match fuel with
  | O => ([], [])
  | S fuel' =>
    match rest with
    | [] => ([], [])
    | _ :: _ =>
      if startsSequence rest then
        let '(i', rest') := skipSequence (i + 2) (sliceFrom rest 2) in
        scanLoop fuel' i' rest'
      else
        let '(r, size) := printableRune rest in
        let '(runes, offsets) :=
          scanLoop fuel' (i + size) (sliceFrom rest size) in
        (r :: runes, i :: offsets)
    end
  end.

Definition printableRunesAndOffsets (s : gostring) : list Z * list Z :=
  let '(runes, offsets) := scanLoop (length s) 0 s in
  (runes, offsets ++ [len s]).

Record span : Type := { start : Z; end_ : Z; ok : bool }.

(** The zero value a slot of [spans] keeps when its link is skipped. *)
Definition noSpan : span := {| start := 0; end_ := 0; ok := false |}.

(** The loop over [links] (lines 27-53), from the link at hand on, with the
    current value of [searchFrom]; the result lists [spans[i]] for these
    links. *)
Fixpoint spanLoop (rendered printableStr : gostring) (offsets : list Z)
         (links : list followableLink) (searchFrom : Z) : list span :=
  match links with
  | [] => []
  | l :: links' =>
    let label := strings.TrimSpace (Label l) in
    if eqs label [] || (len printableStr <=? searchFrom) then
      noSpan :: spanLoop rendered printableStr offsets links' searchFrom
    else
      let relIdx := strings.Index (sliceFrom printableStr searchFrom) label in
      if relIdx <? 0 then
        noSpan :: spanLoop rendered printableStr offsets links' searchFrom
      else
        let byteIdx := searchFrom + relIdx in
        let searchFrom := byteIdx + len label in
        let startRune :=
          utf8.RuneCountInString (sliceTo printableStr byteIdx) in
        let endRune := startRune + utf8.RuneCountInString label in
        if (startRune <? 0) || (len offsets - 1 <? endRune) then
          noSpan :: spanLoop rendered printableStr offsets links' searchFrom
        else
          let startByte := elemAt offsets startRune in
          let endByte := elemAt offsets endRune in
          if (startByte <? 0) || (endByte <? startByte)
             || (len rendered <? endByte) then
            noSpan :: spanLoop rendered printableStr offsets links' searchFrom
          else
            {| start := startByte; end_ := endByte; ok := true |}
            :: spanLoop rendered printableStr offsets links' searchFrom
  end.

Definition reverseOn : gostring := ESC :: bytes "[7m".
Definition reverseOff : gostring := ESC :: bytes "[27m".

(** [rendered] with the two markers around [rendered[start:end]]. *)
Definition wrap (rendered : gostring) (start end_ : Z) : gostring :=
  sliceTo rendered start ++ reverseOn ++ slice rendered start end_
  ++ reverseOff ++ sliceFrom rendered end_.

Definition highlightFocusedLink (rendered : gostring)
           (links : list followableLink) (focused : Z) : gostring :=
  if (focused <? 0) || (len links <=? focused) then rendered
  else
    let '(printable, offsets) := printableRunesAndOffsets rendered in
    if len printable =? 0 then rendered
    else
      let printableStr := utf8.stringOfRunes printable in
      let spans := spanLoop rendered printableStr offsets links 0 in
      let s := nth (Z.to_nat focused) spans noSpan in
      if negb (ok s) then rendered
      else wrap rendered (start s) (end_ s).

(** The escape sequences of [s] as the scanner delimits them: the byte
    ranges [(a, b)] it skips, [s[a:b]] being [ESC '['] and what follows up
    to and including the first byte in [0x40..0x7E] (or up to the end of
    [s] when there is none). *)
Fixpoint escapeLoop (fuel : nat) (i : Z) (rest : gostring) : list (Z * Z) :=
  match fuel with
  | O => []
  | S fuel' =>
    match rest with
    | [] => []
    | _ :: _ =>
      if startsSequence rest then
        let '(i', rest') := skipSequence (i + 2) (sliceFrom rest 2) in
        (i, i') :: escapeLoop fuel' i' rest'
      else
        let '(_, size) := printableRune rest in
        escapeLoop fuel' (i + size) (sliceFrom rest size)
    end
  end.

Definition escapeSequences (s : gostring) : list (Z * Z) :=
  escapeLoop (length s) 0 s.

(** Printable rune [r] starts at byte [o] of [s]: [o] is an index of [s],
    no escape sequence starts there, and [r] is what the scanner reads
    there. *)
Definition printableAt (s : gostring) (o r : Z) : Prop :=
  0 <= o < len s
  /\ startsSequence (sliceFrom s o) = false
  /\ fst (printableRune (sliceFrom s o)) = r.

(** [spans] as the loop of [highlightFocusedLink] leaves it, and the span
    [s := spans[focused]] the function goes on with ([noSpan] when it
    returns before reaching that line). *)
Definition linkSpans (rendered : gostring) (links : list followableLink)
  : list span :=
  let '(printable, offsets) := printableRunesAndOffsets rendered in
  spanLoop rendered (utf8.stringOfRunes printable) offsets links 0.

Definition focusedSpan (rendered : gostring) (links : list followableLink)
           (focused : Z) : span :=
  if (focused <? 0) || (len links <=? focused) then noSpan
  else if len (fst (printableRunesAndOffsets rendered)) =? 0 then noSpan
  else nth (Z.to_nat focused) (linkSpans rendered links) noSpan.

(** The rune string [rs] occurs in [runes] at rune index [k]. *)
Definition occursAt (runes rs : list Z) (k : Z) : Prop :=
  0 <= k /\ slice runes k (k + len rs) = rs.

(** By how many bytes the two markers move the byte at index [a] of the
    input when they are inserted at [st] and [en]. *)
Definition shiftOf (st en a : Z) : Z :=
  if a <? st then 0
  else if a <? en then len reverseOn
  else len reverseOn + len reverseOff.

(** ** The viewport widget (bubbles) *)

Module viewport.

(** The fields of [viewport.Model] the pager reads or writes, and the
    lines of its content. *)
Record Model : Type := {
  Width : Z;
  Height : Z;
  YOffset : Z;
  lines : list gostring
}.

Definition setYOffset (m : Model) (y : Z) : Model :=
  {| Width := Width m; Height := Height m; YOffset := y; lines := lines m |}.

Definition setLines (m : Model) (l : list gostring) : Model :=
  {| Width := Width m; Height := Height m; YOffset := YOffset m; lines := l |}.

Definition setSize (m : Model) (w h : Z) : Model :=
  {| Width := w; Height := h; YOffset := YOffset m; lines := lines m |}.

Definition maxYOffset (m : Model) : Z := Z.max 0 (len (lines m) - Height m).

Definition AtTop (m : Model) : bool := YOffset m <=? 0.

Definition PastBottom (m : Model) : bool := maxYOffset m <? YOffset m.

(** [SetYOffset]: the offset clamped to [0..maxYOffset]. *)
Definition SetYOffset (m : Model) (n : Z) : Model :=
  setYOffset m (Z.min (maxYOffset m) (Z.max 0 n)).

Definition GotoTop (m : Model) : Model :=
  if AtTop m then m else SetYOffset m 0.

Definition GotoBottom (m : Model) : Model := SetYOffset m (maxYOffset m).

(** [strings.ReplaceAll] of CR LF by LF, and [strings.Split] at LF. *)
Fixpoint normalizeNewlines (s : gostring) : gostring :=
  match s with
  | [] => []
  | c :: s' =>
    match s' with
    | c' :: _ =>
      if chr "013" c && chr "010" c' then normalizeNewlines s'
      else c :: normalizeNewlines s'
    | [] => [c]
    end
  end.

Fixpoint splitLines (s : gostring) : list gostring :=
  match s with
  | [] => [[]]
  | c :: s' =>
    if chr "010" c then [] :: splitLines s'
    else match splitLines s' with
         | l :: ls => (c :: l) :: ls
         | [] => [[c]]
         end
  end.

Definition SetContent (m : Model) (s : gostring) : Model :=
  let m := setLines m (splitLines (normalizeNewlines s)) in
  if len (lines m) - 1 <? YOffset m then GotoBottom m else m.

End viewport.

(** ** pager.go: the navigation state *)

Definition statusBarHeight : Z := 1.

Inductive pagerState : Type :=
| pagerStateBrowse
| pagerStateStatusMessage.

Module navEntry.
Record t : Type := { Path : gostring; YOffset : Z }.
End navEntry.

(** The document on display ([markdown], declared in another file of the
    package), with the fields the pager uses. *)
Record markdown : Type := {
  localPath : gostring;
  Note : gostring;
  Body : gostring
}.

(** [commonModel], also declared elsewhere: the configuration flag and the
    dimensions the pager reads.  The pager is always built by
    [newPagerModel] from a non-nil [common], so the [m.common != nil] tests
    of [update] hold. *)
Record commonModel : Type := {
  HighPerformancePager : bool;
  cwd : gostring;
  width : Z;
  height : Z
}.

(** [statusMessageTimer], [watcher] and [watchCancel] are pointers and a
    channel: the model keeps whether each is non-nil. *)
Record pagerModel : Type := {
  common : commonModel;
  viewport : viewport.Model;
  state : pagerState;
  showHelp : bool;
  statusMessage : gostring;
  statusMessageTimer : bool;
  currentDocument : markdown;
  rendered : gostring;
  links : list followableLink;
  focusedLink : Z;
  history : list navEntry.t;
  pendingRestoreYOffset : option Z;
  watcher : bool;
  watchedDir : gostring;
  watchCancel : bool
}.

Definition set_viewport (m : pagerModel) (v : viewport.Model) : pagerModel :=
  {| common := common m; viewport := v; state := state m; showHelp :=
     showHelp m; statusMessage := statusMessage m; statusMessageTimer :=
     statusMessageTimer m; currentDocument := currentDocument m; rendered :=
     rendered m; links := links m; focusedLink := focusedLink m; history :=
     history m; pendingRestoreYOffset := pendingRestoreYOffset m; watcher :=
     watcher m; watchedDir := watchedDir m; watchCancel := watchCancel m |}.

Definition set_state (m : pagerModel) (v : pagerState) : pagerModel :=
  {| common := common m; viewport := viewport m; state := v; showHelp :=
     showHelp m; statusMessage := statusMessage m; statusMessageTimer :=
     statusMessageTimer m; currentDocument := currentDocument m; rendered :=
     rendered m; links := links m; focusedLink := focusedLink m; history :=
     history m; pendingRestoreYOffset := pendingRestoreYOffset m; watcher :=
     watcher m; watchedDir := watchedDir m; watchCancel := watchCancel m |}.

Definition set_showHelp (m : pagerModel) (v : bool) : pagerModel :=
  {| common := common m; viewport := viewport m; state := state m; showHelp
     := v; statusMessage := statusMessage m; statusMessageTimer :=
     statusMessageTimer m; currentDocument := currentDocument m; rendered :=
     rendered m; links := links m; focusedLink := focusedLink m; history :=
     history m; pendingRestoreYOffset := pendingRestoreYOffset m; watcher :=
     watcher m; watchedDir := watchedDir m; watchCancel := watchCancel m |}.

Definition set_statusMessage (m : pagerModel) (v : gostring) : pagerModel :=
  {| common := common m; viewport := viewport m; state := state m; showHelp
     := showHelp m; statusMessage := v; statusMessageTimer :=
     statusMessageTimer m; currentDocument := currentDocument m; rendered :=
     rendered m; links := links m; focusedLink := focusedLink m; history :=
     history m; pendingRestoreYOffset := pendingRestoreYOffset m; watcher :=
     watcher m; watchedDir := watchedDir m; watchCancel := watchCancel m |}.

Definition set_statusMessageTimer (m : pagerModel) (v : bool) : pagerModel :=
  {| common := common m; viewport := viewport m; state := state m; showHelp
     := showHelp m; statusMessage := statusMessage m; statusMessageTimer :=
     v; currentDocument := currentDocument m; rendered := rendered m; links
     := links m; focusedLink := focusedLink m; history := history m;
     pendingRestoreYOffset := pendingRestoreYOffset m; watcher := watcher m;
     watchedDir := watchedDir m; watchCancel := watchCancel m |}.

Definition set_currentDocument (m : pagerModel) (v : markdown) : pagerModel :=
  {| common := common m; viewport := viewport m; state := state m; showHelp
     := showHelp m; statusMessage := statusMessage m; statusMessageTimer :=
     statusMessageTimer m; currentDocument := v; rendered := rendered m;
     links := links m; focusedLink := focusedLink m; history := history m;
     pendingRestoreYOffset := pendingRestoreYOffset m; watcher := watcher m;
     watchedDir := watchedDir m; watchCancel := watchCancel m |}.

Definition set_rendered (m : pagerModel) (v : gostring) : pagerModel :=
  {| common := common m; viewport := viewport m; state := state m; showHelp
     := showHelp m; statusMessage := statusMessage m; statusMessageTimer :=
     statusMessageTimer m; currentDocument := currentDocument m; rendered :=
     v; links := links m; focusedLink := focusedLink m; history := history
     m; pendingRestoreYOffset := pendingRestoreYOffset m; watcher := watcher
     m; watchedDir := watchedDir m; watchCancel := watchCancel m |}.

Definition set_links (m : pagerModel) (v : list followableLink) : pagerModel :=
  {| common := common m; viewport := viewport m; state := state m; showHelp
     := showHelp m; statusMessage := statusMessage m; statusMessageTimer :=
     statusMessageTimer m; currentDocument := currentDocument m; rendered :=
     rendered m; links := v; focusedLink := focusedLink m; history :=
     history m; pendingRestoreYOffset := pendingRestoreYOffset m; watcher :=
     watcher m; watchedDir := watchedDir m; watchCancel := watchCancel m |}.

Definition set_focusedLink (m : pagerModel) (v : Z) : pagerModel :=
  {| common := common m; viewport := viewport m; state := state m; showHelp
     := showHelp m; statusMessage := statusMessage m; statusMessageTimer :=
     statusMessageTimer m; currentDocument := currentDocument m; rendered :=
     rendered m; links := links m; focusedLink := v; history := history m;
     pendingRestoreYOffset := pendingRestoreYOffset m; watcher := watcher m;
     watchedDir := watchedDir m; watchCancel := watchCancel m |}.

Definition set_history (m : pagerModel) (v : list navEntry.t) : pagerModel :=
  {| common := common m; viewport := viewport m; state := state m; showHelp
     := showHelp m; statusMessage := statusMessage m; statusMessageTimer :=
     statusMessageTimer m; currentDocument := currentDocument m; rendered :=
     rendered m; links := links m; focusedLink := focusedLink m; history :=
     v; pendingRestoreYOffset := pendingRestoreYOffset m; watcher := watcher
     m; watchedDir := watchedDir m; watchCancel := watchCancel m |}.

Definition set_pendingRestoreYOffset (m : pagerModel) (v : option Z) : pagerModel :=
  {| common := common m; viewport := viewport m; state := state m; showHelp
     := showHelp m; statusMessage := statusMessage m; statusMessageTimer :=
     statusMessageTimer m; currentDocument := currentDocument m; rendered :=
     rendered m; links := links m; focusedLink := focusedLink m; history :=
     history m; pendingRestoreYOffset := v; watcher := watcher m; watchedDir
     := watchedDir m; watchCancel := watchCancel m |}.

Definition set_watchedDir (m : pagerModel) (v : gostring) : pagerModel :=
  {| common := common m; viewport := viewport m; state := state m; showHelp
     := showHelp m; statusMessage := statusMessage m; statusMessageTimer :=
     statusMessageTimer m; currentDocument := currentDocument m; rendered :=
     rendered m; links := links m; focusedLink := focusedLink m; history :=
     history m; pendingRestoreYOffset := pendingRestoreYOffset m; watcher :=
     watcher m; watchedDir := v; watchCancel := watchCancel m |}.

Definition set_watchCancel (m : pagerModel) (v : bool) : pagerModel :=
  {| common := common m; viewport := viewport m; state := state m; showHelp
     := showHelp m; statusMessage := statusMessage m; statusMessageTimer :=
     statusMessageTimer m; currentDocument := currentDocument m; rendered :=
     rendered m; links := links m; focusedLink := focusedLink m; history :=
     history m; pendingRestoreYOffset := pendingRestoreYOffset m; watcher :=
     watcher m; watchedDir := watchedDir m; watchCancel := v |}.

(** The strings [msg.String()] is compared with in [update]; [keyEsc],
    [keyTab], [keyShiftTab], [keyEnter] and [keyBackspace] are constants of
    the package declared in another file.  The cases of a Go switch over
    constants are pairwise distinct, [keyOther] is any other key. *)
Inductive key : Type :=
| key_q | keyEsc | keyTab | keyShiftTab | key_backtab | keyEnter
| keyBackspace | key_home | key_g | key_end | key_G | key_e | key_c | key_r
| key_help
| keyOther (name : gostring).

Inductive Msg : Type :=
| KeyMsg (k : key)
| errMsg (text : gostring)
| contentRenderedMsg (s : gostring)
| reloadMsg
| editorFinishedMsg
| WindowSizeMsg
| statusMessageTimeoutMsg
| otherMsg.   (* mouse events and whatever else the program sends *)

(** The commands [update] returns, by the function that builds them. *)
Inductive Cmd : Type :=
| nilCmd
| waitForStatusMessageTimeout
| loadLocalMarkdown (md : markdown)
| openEditor (path : gostring) (lineno : Z)
| renderWithGlamour (body : gostring)
| viewportSync (vp : viewport.Model)
| watchFile
| viewportCmd
| Batch (cmds : list Cmd).

Record pagerStatusMessage : Type := { message : gostring; isError : bool }.

(** What the pager asks of the terminal side: how the viewport reacts to
    keys and mouse events (its bindings scroll it), the line the editor is
    opened at (computed in floating point), the height of the help view,
    and whether fsnotify accepts to watch a directory. *)
Class Terminal : Type := {
  viewport_input : viewport.Model -> Msg -> viewport.Model * Cmd;
  editorLine : viewport.Model -> Z;
  pagerHelpHeight : Z;
  watcher_Add : gostring -> bool
}.

Section Pager.
Context {E : Extern} {T : Terminal}.

(** [viewport.Model.Update]: only key and mouse messages reach the
    bindings, any other message leaves the viewport as it is. *)
Definition viewportUpdate (vp : viewport.Model) (msg : Msg)
  : viewport.Model * Cmd :=
  match msg with
  | KeyMsg _ | otherMsg => viewport_input vp msg
  | _ => (vp, nilCmd)
  end.

Definition setSize (m : pagerModel) (w h : Z) : pagerModel :=
  let vp := viewport.setSize (viewport m) w (h - statusBarHeight) in
  let vp :=
    if showHelp m
    then viewport.setSize vp w (viewport.Height vp - (statusBarHeight + pagerHelpHeight))
    else vp in
  set_viewport m vp.

Definition setContent (m : pagerModel) (s : gostring) : pagerModel :=
  set_viewport m (viewport.SetContent (viewport m) s).

Definition applyRenderedContent (m : pagerModel) : pagerModel :=
  let content := rendered m in
  let content :=
    if 0 <=? focusedLink m
    then highlightFocusedLink content (links m) (focusedLink m)
    else content in
  setContent m content.

Definition toggleHelp (m : pagerModel) : pagerModel :=
  let m := set_showHelp m (negb (showHelp m)) in
  let m := setSize m (width (common m)) (height (common m)) in
  if viewport.PastBottom (viewport m)
  then set_viewport m (viewport.GotoBottom (viewport m))
  else m.

Definition showStatusMessage (m : pagerModel) (msg : pagerStatusMessage)
  : pagerModel * Cmd :=
  let m := set_state m pagerStateStatusMessage in
  let m := set_statusMessage m (message msg) in
  let m := set_statusMessageTimer m true in
  (m, waitForStatusMessageTimeout).

Definition localDir (m : pagerModel) : gostring :=
  filepath_Dir (localPath (currentDocument m)).

Definition stopWatching (m : pagerModel) : pagerModel :=
  let m := if watchCancel m then set_watchCancel m false else m in
  if negb (watcher m) || eqs (watchedDir m) [] then m
  else set_watchedDir m [].

Definition startWatching (m : pagerModel) : pagerModel * Cmd :=
  if negb (watcher m) || eqs (localPath (currentDocument m)) [] then (m, nilCmd)
  else
    let m := stopWatching m in
    let dir := localDir m in
    if negb (watcher_Add dir) then (m, nilCmd)
    else
      let m := set_watchedDir m dir in
      let m := set_watchCancel m true in
      (m, watchFile).

Definition followFocusedLink (m : pagerModel) : pagerModel * Cmd :=
  let l := nth (Z.to_nat (focusedLink m)) (links m) noLink in
  if eqs (ResolvedPath l) [] then (m, nilCmd)
  else
    let m :=
      if negb (eqs (localPath (currentDocument m)) [])
      then set_history m
             (history m ++
              [ {| navEntry.Path := localPath (currentDocument m);
                   navEntry.YOffset := viewport.YOffset (viewport m) |} ])
      else m in
    let m := set_focusedLink m (-1) in
    let m := set_viewport m (viewport.GotoTop (viewport m)) in
    let m := set_pendingRestoreYOffset m None in
    let md := {| localPath := ResolvedPath l; Note := ResolvedNote l;
                 Body := [] |} in
    (m, loadLocalMarkdown md).

Definition goBack (m : pagerModel) : pagerModel * Cmd :=
  if len (history m) =? 0 then (m, nilCmd)
  else
    let last := List.last (history m) {| navEntry.Path := []; navEntry.YOffset := 0 |} in
    let m := set_history m (removelast (history m)) in
    let m := set_focusedLink m (-1) in
    let y := navEntry.YOffset last in
    let m := set_pendingRestoreYOffset m (Some y) in
    let m := set_viewport m (viewport.GotoTop (viewport m)) in
    let md := {| localPath := navEntry.Path last;
                 Note := stripAbsolutePath (navEntry.Path last) (cwd (common m));
                 Body := [] |} in
    (m, loadLocalMarkdown md).

(** The end of [update]: the message goes on to the viewport and the
    commands are batched. *)
Definition finish (m : pagerModel) (cmds : list Cmd) (msg : Msg)
  : pagerModel * Cmd :=
  let '(vp, cmd) := viewportUpdate (viewport m) msg in
  (set_viewport m vp, Batch (cmds ++ [cmd])).

Definition syncCmds (m : pagerModel) : list Cmd :=
  if HighPerformancePager (common m) then [viewportSync (viewport m)] else [].

Definition openNote (m : pagerModel) : pagerStatusMessage :=
  {| message := bytes "Open: "
                ++ ResolvedNote (nth (Z.to_nat (focusedLink m)) (links m) noLink);
     isError := false |}.

Definition update (m : pagerModel) (msg : Msg) : pagerModel * Cmd :=
  match msg with
  | KeyMsg k =>
    match k with
    | key_q | keyEsc =>
      match state m with
      | pagerStateBrowse => finish m [] msg
      | _ => (set_state m pagerStateBrowse, nilCmd)
      end
    | keyTab =>
      if len (links m) =? 0 then
        let '(m, c) := showStatusMessage m
          {| message := bytes "No followable links"; isError := false |} in
        finish m [c] msg
      else
        let m :=
          if focusedLink m <? 0 then set_focusedLink m 0
          else set_focusedLink m (Z.rem (focusedLink m + 1) (len (links m))) in
        let m := applyRenderedContent m in
        let '(m, c) := showStatusMessage m (openNote m) in
        finish m [c] msg
    | keyShiftTab | key_backtab =>
      if len (links m) =? 0 then
        let '(m, c) := showStatusMessage m
          {| message := bytes "No followable links"; isError := false |} in
        finish m [c] msg
      else
        let m :=
          if focusedLink m <? 0 then set_focusedLink m (len (links m) - 1)
          else
            let m := set_focusedLink m (focusedLink m - 1) in
            if focusedLink m <? 0 then set_focusedLink m (len (links m) - 1)
            else m in
        let m := applyRenderedContent m in
        let '(m, c) := showStatusMessage m (openNote m) in
        finish m [c] msg
    | keyEnter =>
      if (0 <=? focusedLink m) && (focusedLink m <? len (links m)) then
        followFocusedLink m
      else if 0 <? len (links m) then
        let '(m, c) := showStatusMessage m
          {| message := bytes "Tab to select a link"; isError := false |} in
        finish m [c] msg
      else finish m [] msg
    | keyBackspace =>
      if 0 <? len (history m) then goBack m
      else finish m [] msg
    | key_home | key_g =>
      let m := set_viewport m (viewport.GotoTop (viewport m)) in
      finish m (syncCmds m) msg
    | key_end | key_G =>
      let m := set_viewport m (viewport.GotoBottom (viewport m)) in
      finish m (syncCmds m) msg
    | key_e =>
      (m, openEditor (localPath (currentDocument m)) (editorLine (viewport m)))
    | key_c =>
      let '(m, c) := showStatusMessage m
        {| message := bytes "Copied contents"; isError := false |} in
      finish m [c] msg
    | key_r => (m, loadLocalMarkdown (currentDocument m))
    | key_help =>
      let m := toggleHelp m in
      finish m (syncCmds m) msg
    | keyOther _ => finish m [] msg
    end
  | errMsg text =>
    let m := set_pendingRestoreYOffset m None in
    let '(m, c) := showStatusMessage m {| message := text; isError := true |} in
    finish m [c] msg
  | contentRenderedMsg s =>
    let m := set_rendered m s in
    let m := applyRenderedContent m in
    let m :=
      match pendingRestoreYOffset m with
      | Some y =>
        let m := set_viewport m (viewport.setYOffset (viewport m) y) in
        let m :=
          if viewport.PastBottom (viewport m)
          then set_viewport m (viewport.GotoBottom (viewport m))
          else m in
        set_pendingRestoreYOffset m None
      | None => m
      end in
    let sync := syncCmds m in
    let '(m, w) := startWatching m in
    finish m (sync ++ [w]) msg
  | reloadMsg => (m, loadLocalMarkdown (currentDocument m))
  | editorFinishedMsg => (m, loadLocalMarkdown (currentDocument m))
  | WindowSizeMsg => (m, renderWithGlamour (Body (currentDocument m)))
  | statusMessageTimeoutMsg => finish (set_state m pagerStateBrowse) [] msg
  | otherMsg => finish m [] msg
  end.

(** [unload]: the help is closed, the status timer stopped (the pointer
    stays), and the document, the registry, the focus, the history and
    the watch are dropped. *)
Definition unload (m : pagerModel) : pagerModel :=
  let m := if showHelp m then toggleHelp m else m in
  let m := set_state m pagerStateBrowse in
  let m := set_viewport m (viewport.SetContent (viewport m) []) in
  let m := set_viewport m (viewport.setYOffset (viewport m) 0) in
  let m := set_rendered m [] in
  let m := set_links m [] in
  let m := set_focusedLink m (-1) in
  let m := set_history m [] in
  let m := set_pendingRestoreYOffset m None in
  stopWatching m.

End Pager.

(** [newPagerModel] with [initWatcher]: [viewport.New(0, 0)], no focus,
    and a watcher when [fsnotify.NewWatcher] succeeds ([watcherCreated]). *)
Definition newPagerModel (common : commonModel) (watcherCreated : bool)
  : pagerModel := {|
  common := common;
  viewport := {| viewport.Width := 0; viewport.Height := 0;
                 viewport.YOffset := 0; viewport.lines := [] |};
  state := pagerStateBrowse;
  showHelp := false;
  statusMessage := [];
  statusMessageTimer := false;
  currentDocument := {| localPath := []; Note := []; Body := [] |};
  rendered := [];
  links := [];
  focusedLink := -1;
  history := [];
  pendingRestoreYOffset := None;
  watcher := watcherCreated;
  watchedDir := [];
  watchCancel := false
|}.

(** What one turn of the [select] of [watchFile] receives: the closing of
    [cancel], an event of the watcher (its name and whether its [Op] has
    the [Write] and the [Create] bits), an error of the watcher, or the
    closing of one of the watcher's channels. *)
Inductive watchItem : Type :=
| cancelClosed
| fsEvent (Name : gostring) (hasWrite hasCreate : bool)
| eventsClosed
| fsError
| errorsClosed.

(** The loop of [watchFile] over what its [select] receives, turn by
    turn (the command of that name in [Cmd] stands for the closure that
    runs it): [Some msg] is the message returned ([None] for Go's [nil]),
    and the outer [None] a loop still waiting when the items run out. *)
Fixpoint watchFileLoop (m : pagerModel) (received : list watchItem)
  : option (option Msg) :=
  match received with
  | [] => None
  | cancelClosed :: _ => Some None
  | fsEvent Name hasWrite hasCreate :: rest =>
    if negb (eqs Name (localPath (currentDocument m))) then
      watchFileLoop m rest
    else if negb hasWrite && negb hasCreate then watchFileLoop m rest
    else Some (Some reloadMsg)
  | eventsClosed :: _ => Some None
  | fsError :: rest => watchFileLoop m rest
  | errorsClosed :: _ => Some None
  end.

(** ** Notions the properties about links are stated with *)

(** Lines 137-138 of [resolveFollowableLink] and 76-77 of
    [isFollowableHref]: what the two functions make of [href] before
    anything else. *)
Definition normalizeHref (href : gostring) : gostring :=
  strings.Trim (strings.TrimSpace href) (bytes "<>").

(** The href the tests of [isFollowableHref] are run on when it is called
    from [resolveFollowableLink]: trimmed by the resolver, then by the
    classifier. *)
Definition classifiedHref (href : gostring) : gostring :=
  normalizeHref (normalizeHref href).

(** Normalization as the specification words it: surrounding whitespace
    trimmed, then one layer of angle brackets stripped if present. *)
Definition stripOneLayer (s : gostring) : gostring :=
  if strings.HasPrefix s (bytes "<") && strings.HasSuffix s (bytes ">")
     && (2 <=? len s)
  then slice s 1 (len s - 1)
  else s.

Definition normalizeHref_spec (href : gostring) : gostring :=
  stripOneLayer (strings.TrimSpace href).

Definition isAngle (c : ascii) : bool := strings.inSet (bytes "<>") c.

(** [s] begins with [prefix] up to the case of ASCII letters. *)
Fixpoint hasPrefixFold (s prefix : gostring) : bool :=
  match prefix, s with
  | [], _ => true
  | _ :: _, [] => false
  | p :: prefix', c :: s' =>
    Ascii.eqb (strings.lowerByte c) (strings.lowerByte p)
    && hasPrefixFold s' prefix'
  end.

(** An ASCII byte that is its own lower case. *)
Definition lowerASCII (c : ascii) : Prop :=
  byteval c < utf8.RuneSelf /\ strings.lowerByte c = c.

(** A drive-letter prefix [[A-Za-z]:]. *)
Definition hasDriveLetter (path : gostring) : bool :=
  match path with
  | c0 :: c1 :: _ =>
    let x := byteval c0 in
    (((97 <=? x) && (x <=? 122)) || ((65 <=? x) && (x <=? 90)))
    && chr ":" c1
  | _ => false
  end.

(** The extension of a slash-separated path, as Go's [path.Ext] gives it:
    the suffix that starts at the last dot of the last element, empty when
    that element has no dot.  [extFrom] walks the path from its end. *)
Fixpoint extFrom (r acc : gostring) : gostring :=
  match r with
  | [] => []
  | c :: r' =>
    if chr "/" c then []
    else if chr "." c then c :: acc
    else extFrom r' (c :: acc)
  end.

Definition pathExt (path : gostring) : gostring := extFrom (rev path) [].

Section LinkInvariant.
Context {E : Extern}.

(** Step 5's evaluation of symlinks: [filepath.EvalSymlinks], keeping the
    path as it is when the evaluation fails. *)
Definition evalSymlinksOrKeep (p : gostring) : gostring :=
  match filepath_EvalSymlinks p with
  | Ok evaluated => evaluated
  | Err _ => p
  end.

(** The root the resolver tests against: [rootDir] made absolute, with its
    symlinks evaluated; [None] when [filepath.Abs] fails. *)
Definition evaluatedRoot (rootDir : gostring) : option gostring :=
  match filepath_Abs rootDir with
  | Err _ => None
  | Ok rootAbs => Some (evalSymlinksOrKeep rootAbs)
  end.

(** [path] lies inside [root]: its path relative to [root] is neither
    [..] nor starts with [..] and the separator. *)
Definition insideRoot (root path : gostring) : Prop :=
  exists rel,
    filepath_Rel root path = Ok rel
    /\ rel <> bytes ".."
    /\ strings.HasPrefix rel (bytes ".." ++ [os_PathSeparator]) = false.

(** The invariant of the registry's elements: the resolved path is
    absolute, has its symlinks evaluated (evaluating them again changes
    nothing), is a regular file according to [os.Stat], lies inside the
    evaluated root, and the label is not blank. *)
Definition registryInvariant (rootDir : gostring) (l : followableLink) : Prop :=
  filepath_IsAbs (ResolvedPath l) = true
  /\ evalSymlinksOrKeep (ResolvedPath l) = ResolvedPath l
  /\ (exists info, os_Stat (ResolvedPath l) = Ok info /\ IsRegular info = true)
  /\ (exists root, evaluatedRoot rootDir = Some root
                   /\ insideRoot root (ResolvedPath l))
  /\ strings.TrimSpace (Label l) <> [].

(** What the resolver relies on from [path/filepath], as its documentation
    states it: [filepath.Abs] returns an absolute path, and evaluating the
    symlinks of an absolute path gives an absolute path, on which a further
    evaluation changes nothing. *)
Class FileSystemLaws : Prop := {
  Abs_IsAbs : forall p q, filepath_Abs p = Ok q -> filepath_IsAbs q = true;
  EvalSymlinks_IsAbs :
    forall p q, filepath_IsAbs p = true -> filepath_EvalSymlinks p = Ok q ->
                filepath_IsAbs q = true;
  EvalSymlinks_evaluated :
    forall p q, filepath_EvalSymlinks p = Ok q -> filepath_EvalSymlinks q = Ok q
}.

End LinkInvariant.

(** ** A sample world

    A small file system to run the definitions on, laid out as the
    package's test does: a root [/root] that holds [current.md],
    [100%.md] and a directory [docs] with [target.md], [target.markdown],
    [SPACE NAME.md] and a directory named [dir.md]; beside the root, a
    directory [/outside] with [outside.md]; and in the root a symlink
    [escape] to [/outside]. *)

Module sample.

Definition files : list gostring :=
  [ bytes "/root/current.md"; bytes "/root/100%.md";
    bytes "/root/docs/target.md"; bytes "/root/docs/target.markdown";
    bytes "/root/docs/SPACE NAME.md"; bytes "/outside/outside.md" ].

Definition dirs : list gostring :=
  [ bytes "/"; bytes "/root"; bytes "/root/docs"; bytes "/root/docs/dir.md";
    bytes "/outside" ].

Definition mem (p : gostring) (l : list gostring) : bool := existsb (eqs p) l.

(** The path with the symlink [/root/escape] followed. *)
Definition follow (p : gostring) : gostring :=
  if eqs p (bytes "/root/escape")
     || strings.HasPrefix p (bytes "/root/escape/")
  then bytes "/outside" ++ sliceFrom p (len (bytes "/root/escape"))
  else p.

(** Everything before the last slash. *)
Fixpoint dropLast (r : gostring) : gostring :=
  match r with
  | [] => []
  | c :: r' => if chr "/" c then r' else dropLast r'
  end.

Definition Dir (p : gostring) : gostring := rev (dropLast (rev p)).

Fixpoint splitSlash (s : gostring) : list gostring :=
  match s with
  | [] => [[]]
  | c :: s' =>
    if chr "/" c then [] :: splitSlash s'
    else match splitSlash s' with
         | e :: es => (c :: e) :: es
         | [] => [[c]]
         end
  end.

(** [filepath.Clean] on an absolute path: empty and [.] elements are
    dropped, [..] removes the element before it. *)
Definition cleanStep (stack : list gostring) (e : gostring) : list gostring :=
  if eqs e [] || eqs e (bytes ".") then stack
  else if eqs e (bytes "..") then tl stack
  else e :: stack.

Definition Clean (p : gostring) : gostring :=
  match rev (fold_left cleanStep (splitSlash p) []) with
  | [] => bytes "/"
  | es => flat_map (fun e => bytes "/" ++ e) es
  end.

Definition IsAbs (p : gostring) : bool := strings.HasPrefix p (bytes "/").

Definition Abs (p : gostring) : result gostring :=
  Ok (Clean (if IsAbs p then p else bytes "/" ++ p)).

Definition EvalSymlinks (p : gostring) : result gostring :=
  if mem (follow p) files || mem (follow p) dirs then Ok (follow p)
  else Err (bytes "no such file or directory").

(** [filepath.Rel] for a root directly below [/]. *)
Definition Rel (root p : gostring) : result gostring :=
  if eqs p root then Ok (bytes ".")
  else if strings.HasPrefix p (root ++ bytes "/")
  then Ok (sliceFrom p (len root + 1))
  else Ok (bytes ".." ++ p).

Definition Stat (p : gostring) : result FileInfo :=
  if mem (follow p) files then Ok {| IsRegular := true |}
  else if mem (follow p) dirs then Ok {| IsRegular := false |}
  else Err (bytes "no such file or directory").

Definition strip (p root : gostring) : gostring :=
  if strings.HasPrefix p (root ++ bytes "/")
  then sliceFrom p (len root + 1)
  else p.

(** The tree of a paragraph made of the given inline nodes. *)
Definition paragraph (inlines : list node) : node := Other [Other inlines].

(** The documents the sample parser knows; anything else parses to an
    empty document. *)
Definition docTarget : gostring := bytes "See [Target](docs/target.md).".
Definition docPercent : gostring :=
  bytes "[Odd](100%.md) [Space](docs/SPACE%20NAME.md)".
Definition docEscapes : gostring :=
  bytes "[Up](../outside/outside.md) [Link](escape/outside.md) [](docs/target.md) ![Alt](docs/target.md)".

Definition Parse (markdown : gostring) : node :=
  if eqs markdown docTarget then
    paragraph [ Text (bytes "See ");
                Link (bytes "docs/target.md") [Text (bytes "Target")];
                Text (bytes ".") ]
  else if eqs markdown docPercent then
    paragraph [ Link (bytes "100%.md") [Text (bytes "Odd")];
                Text (bytes " ");
                Link (bytes "docs/SPACE%20NAME.md") [Text (bytes "Space")] ]
  else if eqs markdown docEscapes then
    paragraph [ Link (bytes "../outside/outside.md") [Text (bytes "Up")];
                Text (bytes " ");
                Link (bytes "escape/outside.md") [Text (bytes "Link")];
                Text (bytes " ");
                Link (bytes "docs/target.md") [];
                Text (bytes " ");
                Other [Text (bytes "Alt")] ]
  else Other [].

(** The two non-ASCII code points whose lower case is an ASCII letter. *)
Definition caseTable (r : Z) : Z :=
  if r =? 0x212A then 107 else if r =? 0x130 then 105 else r.

Definition world : Extern := {|
  filepath_Dir := Dir;
  filepath_Join := fun a b => a ++ bytes "/" ++ b;
  filepath_Clean := Clean;
  filepath_IsAbs := IsAbs;
  filepath_Abs := Abs;
  filepath_EvalSymlinks := EvalSymlinks;
  filepath_Rel := Rel;
  os_Stat := Stat;
  os_PathSeparator := "/"%char;
  unicode_caseTable := caseTable;
  goldmark_Parse := Parse;
  stripAbsolutePath := strip
|}.

(** The resolver run from the document [/root/current.md] under the root
    [/root]: the file reached, the verdict and the error. *)
Definition resolve (href : string) : string * bool * option gostring :=
  let '(l, ok, e) :=
    resolveFollowableLink (E := world) (bytes "/root")
      (bytes "/root/current.md") (bytes href) in
  (string_of_list_ascii (ResolvedPath l), ok, e).

End sample.

(** A terminal whose viewport binds no key, and a pager showing
    [/root/current.md], thirty lines long, scrolled to line 5 in a
    viewport of height 10, with the link to [docs/target.md] focused. *)
Module samplePager.

Definition terminal : Terminal := {|
  viewport_input := fun vp _ => (vp, nilCmd);
  editorLine := fun _ => 0;
  pagerHelpHeight := 12;
  watcher_Add := fun _ => true
|}.

Definition target : followableLink :=
  {| Href := bytes "docs/target.md"; Path := bytes "docs/target.md";
     Fragment := []; Label := bytes "Target";
     ResolvedPath := bytes "/root/docs/target.md";
     ResolvedNote := bytes "docs/target.md" |}.

Definition thirtyLines : list gostring := repeat (bytes "line") 30.

Definition pager : pagerModel := {|
  common := {| HighPerformancePager := false; cwd := bytes "/root";
               width := 80; height := 11 |};
  viewport := {| viewport.Width := 80; viewport.Height := 10;
                 viewport.YOffset := 5; viewport.lines := thirtyLines |};
  state := pagerStateBrowse;
  showHelp := false;
  statusMessage := [];
  statusMessageTimer := false;
  currentDocument := {| localPath := bytes "/root/current.md";
                        Note := bytes "current.md"; Body := [] |};
  rendered := [];
  links := [target];
  focusedLink := 0;
  history := [];
  pendingRestoreYOffset := None;
  watcher := true;
  watchedDir := bytes "/root";
  watchCancel := true
|}.

(** The document the parent model stores once [cmd] has loaded it. *)
Definition loaded (m : pagerModel) (cmd : Cmd) : pagerModel :=
  match cmd with
  | loadLocalMarkdown md => set_currentDocument m md
  | _ => m
  end.

End samplePager.

(** * Properties *)

(** ** Tactics *)

(** Case analysis on the test of a conditional, and the reading of the
    boolean facts it leaves. *)
Ltac break_if :=
  match goal with
  | |- context [if ?c then _ else _] => destruct c eqn:?
  end.

Ltac bool_hyps :=
  repeat match goal with
         | H : (_ || _) = false |- _ =>
           apply orb_false_elim in H; destruct H
         | H : (_ && _) = true |- _ =>
           apply andb_prop in H; destruct H
         | H : (_ <? _) = false |- _ => apply Z.ltb_ge in H
         | H : (_ <? _) = true |- _ => apply Z.ltb_lt in H
         | H : (_ <=? _) = false |- _ => apply Z.leb_gt in H
         | H : (_ <=? _) = true |- _ => apply Z.leb_le in H
         | H : (_ =? _) = true |- _ => apply Z.eqb_eq in H
         | H : (_ =? _) = false |- _ => apply Z.eqb_neq in H
         | H : negb _ = true |- _ => apply negb_true_iff in H
         | H : negb _ = false |- _ => apply negb_false_iff in H
         end.

(** Case analysis along the comparisons of [utf8.first]. *)
Ltac first_cases :=
  unfold utf8.first;
  repeat match goal with
         | |- context [?a <? ?b] => destruct (Z.ltb_spec a b); try lia
         | |- context [?a =? ?b] => destruct (Z.eqb_spec a b); try lia
         end.


(** ** Lengths and slices *)

Lemma len_nonneg {A : Type} (l : list A) : 0 <= len l.
Proof. unfold len. lia. Qed.

Lemma len_nil {A : Type} : len (@nil A) = 0.
Proof. reflexivity. Qed.

Lemma len_cons {A : Type} (a : A) (l : list A) : len (a :: l) = len l + 1.
Proof. unfold len. cbn [length]. lia. Qed.

Lemma len_app {A : Type} (l l' : list A) : len (l ++ l') = len l + len l'.
Proof. unfold len. rewrite length_app. lia. Qed.

Create Rewrite HintDb lens.
#[local] Hint Rewrite @len_nil @len_cons @len_app : lens.

Ltac lens := autorewrite with lens in *.

Lemma len_sliceFrom {A : Type} (s : list A) (lo : Z) :
  0 <= lo <= len s -> len (sliceFrom s lo) = len s - lo.
Proof. unfold len, sliceFrom. intros. rewrite length_skipn. lia. Qed.

Lemma len_sliceTo {A : Type} (s : list A) (hi : Z) :
  0 <= hi <= len s -> len (sliceTo s hi) = hi.
Proof. unfold len, sliceTo. intros. rewrite length_firstn. lia. Qed.

Lemma sliceFrom_0 {A : Type} (s : list A) : sliceFrom s 0 = s.
Proof. reflexivity. Qed.

Lemma sliceFrom_all {A : Type} (s : list A) : sliceFrom s (len s) = [].
Proof. unfold sliceFrom, len. rewrite Nat2Z.id. apply skipn_all. Qed.

Lemma sliceFrom_sliceFrom {A : Type} (s : list A) (a b : Z) :
  0 <= a -> 0 <= b -> sliceFrom (sliceFrom s a) b = sliceFrom s (a + b).
Proof.
  intros. unfold sliceFrom. rewrite skipn_skipn. f_equal. lia.
Qed.

Lemma sliceFrom_cons {A : Type} (c : A) (s : list A) (n : Z) :
  0 < n -> sliceFrom (c :: s) n = sliceFrom s (n - 1).
Proof.
  intros. unfold sliceFrom.
  replace (Z.to_nat n) with (S (Z.to_nat (n - 1))) by lia. reflexivity.
Qed.

Lemma slice_split {A : Type} (s : list A) (lo hi : Z) :
  0 <= lo <= hi -> hi <= len s ->
  s = sliceTo s lo ++ slice s lo hi ++ sliceFrom s hi.
Proof.
  intros. unfold slice, sliceTo, sliceFrom.
  rewrite <- (firstn_skipn (Z.to_nat lo) s) at 1. f_equal.
  rewrite <- (firstn_skipn (Z.to_nat (hi - lo)) (skipn (Z.to_nat lo) s)) at 1.
  f_equal. rewrite skipn_skipn. f_equal. lia.
Qed.

Lemma byteval_range (c : ascii) : 0 <= byteval c < 256.
Proof.
  unfold byteval. pose proof (N_ascii_bounded c). lia.
Qed.

Lemma byteval_byteof (z : Z) : 0 <= z < 256 -> byteval (byteof z) = z.
Proof.
  intros. unfold byteval, byteof. rewrite Z.mod_small by lia.
  rewrite N_ascii_embedding by lia. lia.
Qed.

Lemma byteof_byteval (c : ascii) : byteof (byteval c) = c.
Proof.
  unfold byteof. pose proof (byteval_range c).
  rewrite Z.mod_small by lia. unfold byteval.
  rewrite N2Z.id. apply ascii_N_embedding.
Qed.

Lemma eqs_true (a b : gostring) : eqs a b = true <-> a = b.
Proof. unfold eqs. destruct (list_eq_dec ascii_dec a b); split; congruence. Qed.

Lemma eqs_false (a b : gostring) : eqs a b = false <-> a <> b.
Proof. unfold eqs. destruct (list_eq_dec ascii_dec a b); split; congruence. Qed.

(** ** The decoder *)

Lemma DecodeRuneInString_size (s : gostring) :
  s <> [] ->
  1 <= snd (utf8.DecodeRuneInString s) <= 4
  /\ snd (utf8.DecodeRuneInString s) <= len s.
Proof.
  destruct s as [|s0 tl]; [congruence|intros _].
  unfold utf8.DecodeRuneInString.
  assert (Hl : 1 <= len (s0 :: tl)) by (rewrite len_cons; pose proof (len_nonneg tl); lia).
  destruct (utf8.first s0) as [| |sz lo hi] eqn:Hf; cbn [snd]; try lia.
  assert (Hsz : sz = 2 \/ sz = 3 \/ sz = 4).
  { unfold utf8.first in Hf.
    repeat match type of Hf with
           | (if ?c then _ else _) = _ => destruct c
           end; inversion Hf; lia. }
  destruct (len (s0 :: tl) <? sz) eqn:Hlen; cbn [snd]; [lia|].
  apply Z.ltb_ge in Hlen.
  destruct tl as [|s1 tl1]; cbn [snd]; [lia|].
  destruct (utf8.outside lo hi s1); cbn [snd]; [lia|].
  destruct (sz <=? 2) eqn:H2; cbn [snd]; [lia|].
  apply Z.leb_gt in H2.
  destruct tl1 as [|s2 tl2]; cbn [snd]; [lia|].
  destruct (utf8.outside utf8.locb utf8.hicb s2); cbn [snd]; [lia|].
  destruct (sz <=? 3) eqn:H3; cbn [snd].
  { lens. pose proof (len_nonneg tl2). lia. }
  apply Z.leb_gt in H3.
  destruct tl2 as [|s3 tl3]; cbn [snd]; [lia|].
  destruct (utf8.outside utf8.locb utf8.hicb s3); cbn [snd]; [lia|].
  lens. pose proof (len_nonneg tl3). lia.
Qed.

Lemma printableRune_size (rest : gostring) :
  rest <> [] ->
  1 <= snd (printableRune rest) <= len rest.
Proof.
  intros H. unfold printableRune.
  pose proof (DecodeRuneInString_size rest H) as [H1 H2].
  destruct (utf8.DecodeRuneInString rest) as [r size]. cbn [snd] in *.
  destruct ((r =? utf8.RuneError) && (size =? 1)); cbn [snd]; lia.
Qed.

Lemma skipSequence_spec (rest : gostring) :
  forall i i' rest',
    skipSequence i rest = (i', rest') ->
    i <= i' <= i + len rest /\ rest' = sliceFrom rest (i' - i).
Proof.
  induction rest as [|c rest IH]; intros i i' rest' H; cbn [skipSequence] in H.
  - inversion H; subst. rewrite len_nil. split; [lia|].
    rewrite Z.sub_diag. reflexivity.
  - rewrite len_cons. pose proof (len_nonneg rest).
    destruct ((64 <=? byteval c) && (byteval c <=? 126)).
    + inversion H; subst. split; [lia|].
      replace (i + 1 - i) with 1 by lia. reflexivity.
    + apply IH in H. destruct H as [H1 H2]. split; [lia|].
      subst rest'. rewrite sliceFrom_cons by lia. f_equal. lia.
Qed.

Lemma startsSequence_len (rest : gostring) :
  startsSequence rest = true -> 2 <= len rest.
Proof.
  destruct rest as [|c0 [|c1 tl]]; cbn [startsSequence]; try discriminate.
  intros _. lens. pose proof (len_nonneg tl). lia.
Qed.

(** ** The scanner *)

Lemma printableAt_shift (rest : gostring) (d o r : Z) :
  0 <= d <= len rest ->
  printableAt (sliceFrom rest d) o r -> printableAt rest (d + o) r.
Proof.
  intros Hd (Ho & Hs & Hr). rewrite len_sliceFrom in Ho by lia.
  rewrite sliceFrom_sliceFrom in Hs, Hr by lia.
  repeat split; try assumption; lia.
Qed.

Lemma scanLoop_spec (fuel : nat) :
  forall i rest runes offsets,
    (length rest <= fuel)%nat ->
    scanLoop fuel i rest = (runes, offsets) ->
    Forall2 (fun r o => printableAt rest (o - i) r) runes offsets
    /\ StronglySorted Z.lt offsets
    /\ Forall (fun o => i <= o < i + len rest) offsets.
Proof.
  induction fuel as [|fuel IH]; intros i rest runes offsets Hfuel H.
  - cbn in H. inversion H; subst. repeat split; constructor.
  - cbn [scanLoop] in H.
    destruct rest as [|c rest0] eqn:Hrest.
    { inversion H; subst. repeat split; constructor. }
    rewrite <- Hrest in *.
    assert (Hne : rest <> []) by (subst; discriminate).
    assert (Hlen : Z.of_nat (length rest) = len rest) by reflexivity.
    destruct (startsSequence rest) eqn:Hseq.
    + destruct (skipSequence (i + 2) (sliceFrom rest 2)) as [i' rest'] eqn:Hskip.
      pose proof (startsSequence_len _ Hseq) as H2.
      apply skipSequence_spec in Hskip. destruct Hskip as [Hi' Hr'].
      rewrite len_sliceFrom in Hi' by lia.
      rewrite sliceFrom_sliceFrom in Hr' by lia.
      assert (Hl' : len rest' = len rest - (i' - i)).
      { subst rest'. rewrite len_sliceFrom by lia. lia. }
      apply IH in H; [|unfold len in *; lia].
      destruct H as (HF2 & HS & HF). repeat split.
      * eapply Forall2_impl; [|exact HF2]. cbn beta. intros r o Hp.
        subst rest'. apply printableAt_shift in Hp; [|lia].
        replace (o - i) with (2 + (i' - (i + 2)) + (o - i')) by lia. exact Hp.
      * exact HS.
      * eapply Forall_impl; [|exact HF]. cbn beta. intros o Ho. lia.
    + pose proof (printableRune_size rest Hne) as Hsz.
      destruct (printableRune rest) as [r size] eqn:Hpr. cbn [snd] in Hsz.
      destruct (scanLoop fuel (i + size) (sliceFrom rest size))
        as [runes' offsets'] eqn:Hrec.
      inversion H; subst runes offsets; clear H.
      assert (Hl' : len (sliceFrom rest size) = len rest - size)
        by (apply len_sliceFrom; lia).
      apply IH in Hrec; [|unfold len in *; lia].
      destruct Hrec as (HF2 & HS & HF). repeat split.
      * constructor.
        -- unfold printableAt. rewrite Z.sub_diag, sliceFrom_0.
           repeat split; try lia; try assumption.
           rewrite Hpr. reflexivity.
        -- eapply Forall2_impl; [|exact HF2]. cbn beta. intros r' o Hp.
           apply printableAt_shift in Hp; [|lia].
           replace (o - i) with (size + (o - (i + size))) by lia. exact Hp.
      * constructor; [exact HS|].
        eapply Forall_impl; [|exact HF]. cbn beta. intros o Ho. lia.
      * constructor; [lia|].
        eapply Forall_impl; [|exact HF]. cbn beta. intros o Ho. lia.
Qed.

Lemma StronglySorted_snoc (l : list Z) (x : Z) :
  StronglySorted Z.lt l -> Forall (fun o => o < x) l ->
  StronglySorted Z.lt (l ++ [x]).
Proof.
  induction 1 as [|a l Hs IH Ha]; intros HF; cbn [app].
  - repeat constructor.
  - inversion HF; subst. constructor; [auto|].
    apply Forall_app. split; [assumption|]. repeat constructor. assumption.
Qed.

(** What [printableRunesAndOffsets] returns, as one statement about the
    pair. *)
Lemma printableRunesAndOffsets_spec (s : gostring) :
  exists runes offs,
    printableRunesAndOffsets s = (runes, offs ++ [len s])
    /\ Forall2 (fun r o => printableAt s o r) runes offs
    /\ StronglySorted Z.lt (offs ++ [len s])
    /\ Forall (fun o => 0 <= o < len s) offs.
Proof.
  unfold printableRunesAndOffsets.
  destruct (scanLoop (length s) 0 s) as [runes offs] eqn:H.
  apply scanLoop_spec in H; [|lia]. destruct H as (HF2 & HS & HF).
  exists runes, offs. split; [reflexivity|]. repeat split.
  - eapply Forall2_impl; [|exact HF2]. cbn beta. intros r o.
    rewrite Z.sub_0_r. trivial.
  - apply StronglySorted_snoc; [exact HS|].
    eapply Forall_impl; [|exact HF]. cbn beta. intros; lia.
  - exact HF.
Qed.

Lemma sorted_nth (l : list Z) :
  StronglySorted Z.lt l ->
  forall a b d, (a < b < length l)%nat -> nth a l d < nth b l d.
Proof.
  induction 1 as [|x l Hs IH Hx]; intros a b d Hab; cbn [length] in Hab.
  - lia.
  - destruct b as [|b]; [lia|]. destruct a as [|a]; cbn [nth].
    + rewrite Forall_forall in Hx. apply Hx. apply nth_In. lia.
    + apply IH. lia.
Qed.

Lemma elemAt_mono (l : list Z) (a b : Z) :
  StronglySorted Z.lt l -> 0 <= a <= b -> b < len l ->
  elemAt l a <= elemAt l b.
Proof.
  intros Hs Hab Hb. unfold elemAt, len in *.
  destruct (Z.eq_dec a b) as [->|Hne]; [lia|].
  apply Z.lt_le_incl. apply sorted_nth; [assumption|lia].
Qed.

Lemma elemAt_In (l : list Z) (a : Z) :
  0 <= a < len l -> In (elemAt l a) l.
Proof. intros H. unfold elemAt, len in *. apply nth_In. lia. Qed.

Lemma elemAt_app_l (l l' : list Z) (a : Z) :
  0 <= a < len l -> elemAt (l ++ l') a = elemAt l a.
Proof. intros H. unfold elemAt, len in *. apply app_nth1. lia. Qed.

Lemma elemAt_last (l : list Z) (x : Z) : elemAt (l ++ [x]) (len l) = x.
Proof.
  unfold elemAt, len. rewrite Nat2Z.id, app_nth2 by lia.
  rewrite Nat.sub_diag. reflexivity.
Qed.

Lemma Forall2_elemAt (P : Z -> Z -> Prop) (l l' : list Z) :
  Forall2 P l l' ->
  forall k, 0 <= k < len l -> P (elemAt l k) (elemAt l' k).
Proof.
  induction 1 as [|x y l l' Hxy HF IH]; intros k Hk; unfold len in Hk;
    cbn [length] in Hk.
  - lia.
  - unfold elemAt.
    destruct (Z.to_nat k) as [|n] eqn:Hn; cbn [nth]; [assumption|].
    specialize (IH (Z.of_nat n)). unfold elemAt in IH.
    rewrite Nat2Z.id in IH. apply IH. unfold len. lia.
Qed.

Lemma Forall2_len {A B : Type} (P : A -> B -> Prop) (l : list A) (l' : list B) :
  Forall2 P l l' -> len l = len l'.
Proof. intros H. apply Forall2_length in H. unfold len. lia. Qed.

Lemma RuneCountInString_nonneg (s : gostring) : 0 <= utf8.RuneCountInString s.
Proof. apply len_nonneg. Qed.

(** Every span the loop marks [ok] is cut at two entries of the table. *)
Lemma spanLoop_table (rendered printableStr : gostring) (offsets : list Z)
      (links : list followableLink) :
  forall searchFrom,
    Forall (fun sp => ok sp = true ->
                      exists a b, 0 <= a <= b /\ b < len offsets
                                  /\ start sp = elemAt offsets a
                                  /\ end_ sp = elemAt offsets b
                                  /\ 0 <= start sp <= end_ sp
                                  /\ end_ sp <= len rendered)
           (spanLoop rendered printableStr offsets links searchFrom).
Proof.
  induction links as [|l links IH]; intros searchFrom; cbn [spanLoop].
  - constructor.
  - assert (Hno : forall sf,
               Forall (fun sp => ok sp = true ->
                      exists a b, 0 <= a <= b /\ b < len offsets
                                  /\ start sp = elemAt offsets a
                                  /\ end_ sp = elemAt offsets b
                                  /\ 0 <= start sp <= end_ sp
                                  /\ end_ sp <= len rendered)
                      (noSpan :: spanLoop rendered printableStr offsets links sf)).
    { intros sf. constructor; [cbn; discriminate | apply IH]. }
    repeat (break_if; [apply Hno|]).
    bool_hyps.
    constructor; [|apply IH]. cbn [ok start end_]. intros _.
    pose proof (RuneCountInString_nonneg (strings.TrimSpace (Label l))).
    pose proof (RuneCountInString_nonneg
                  (sliceTo printableStr
                     (searchFrom
                      + strings.Index (sliceFrom printableStr searchFrom)
                                      (strings.TrimSpace (Label l))))).
    eexists _, _. repeat split; try reflexivity; lia.
Qed.

(** No entry of the offsets table falls strictly inside an escape
    sequence. *)
Lemma escapeLoop_spec (fuel : nat) :
  forall i rest,
    (length rest <= fuel)%nat ->
    Forall (fun ab => i <= fst ab /\ fst ab + 2 <= snd ab
                      /\ snd ab <= i + len rest
                      /\ Forall (fun o => o <= fst ab \/ snd ab <= o)
                                (snd (scanLoop fuel i rest)))
           (escapeLoop fuel i rest).
Proof.
  induction fuel as [|fuel IH]; intros i rest Hfuel.
  - constructor.
  - cbn [escapeLoop scanLoop].
    destruct rest as [|c rest0] eqn:Hrest; [constructor|].
    rewrite <- Hrest in *.
    assert (Hne : rest <> []) by (subst; discriminate).
    destruct (startsSequence rest) eqn:Hseq.
    + destruct (skipSequence (i + 2) (sliceFrom rest 2)) as [i' rest'] eqn:Hskip.
      pose proof (startsSequence_len _ Hseq) as H2.
      apply skipSequence_spec in Hskip. destruct Hskip as [Hi' Hr'].
      rewrite len_sliceFrom in Hi' by lia.
      rewrite sliceFrom_sliceFrom in Hr' by lia.
      assert (Hl' : len rest' = len rest - (i' - i)).
      { subst rest'. rewrite len_sliceFrom by lia. lia. }
      assert (Hf' : (length rest' <= fuel)%nat) by (unfold len in *; lia).
      destruct (scanLoop fuel i' rest') as [runes offsets] eqn:Hscan.
      pose proof (scanLoop_spec fuel i' rest' runes offsets Hf' Hscan)
        as (_ & _ & HF).
      constructor.
      * cbn [fst snd]. repeat split; try lia.
        eapply Forall_impl; [|exact HF]. cbn beta. intros o Ho. lia.
      * specialize (IH i' rest' Hf'). rewrite Hscan in IH.
        eapply Forall_impl; [|exact IH]. cbn beta.
        intros [a b]. cbn [fst snd]. intros (Ha & Hb & Hc & Hd).
        repeat split; try lia. exact Hd.
    + pose proof (printableRune_size rest Hne) as Hsz.
      destruct (printableRune rest) as [r size] eqn:Hpr. cbn [snd] in Hsz.
      assert (Hl' : len (sliceFrom rest size) = len rest - size)
        by (apply len_sliceFrom; lia).
      assert (Hf' : (length (sliceFrom rest size) <= fuel)%nat)
        by (unfold len in *; lia).
      specialize (IH (i + size) (sliceFrom rest size) Hf').
      destruct (scanLoop fuel (i + size) (sliceFrom rest size))
        as [runes offsets] eqn:Hscan.
      cbn [snd] in *.
      eapply Forall_impl; [|exact IH]. cbn beta.
      intros [a b]. cbn [fst snd]. intros (Ha & Hb & Hc & Hd).
      repeat split; try lia. constructor; [lia|exact Hd].
Qed.

Lemma escapeSequences_table (s : gostring) :
  Forall (fun ab => 0 <= fst ab /\ fst ab + 2 <= snd ab /\ snd ab <= len s
                    /\ Forall (fun o => o <= fst ab \/ snd ab <= o)
                              (snd (printableRunesAndOffsets s)))
         (escapeSequences s).
Proof.
  unfold escapeSequences, printableRunesAndOffsets.
  pose proof (escapeLoop_spec (length s) 0 s (Nat.le_refl _)) as H.
  destruct (scanLoop (length s) 0 s) as [runes offsets]. cbn [snd] in *.
  eapply Forall_impl; [|exact H]. cbn beta.
  intros [a b]. cbn [fst snd]. intros (Ha & Hb & Hc & Hd).
  repeat split; try lia. apply Forall_app. split; [exact Hd|].
  constructor; [lia|constructor].
Qed.

(** ** Slices of concatenations *)

Lemma firstn_skipn_app_l {A : Type} (p q : list A) (a n : nat) :
  (a + n <= length p)%nat ->
  firstn n (skipn a (p ++ q)) = firstn n (skipn a p).
Proof.
  intros H. rewrite skipn_app, firstn_app, length_skipn.
  replace (a - length p)%nat with 0%nat by lia.
  replace (n - (length p - a))%nat with 0%nat by lia.
  cbn [skipn firstn]. apply app_nil_r.
Qed.

Lemma firstn_skipn_app_r {A : Type} (p q : list A) (a n : nat) :
  firstn n (skipn (length p + a) (p ++ q)) = firstn n (skipn a q).
Proof.
  rewrite skipn_app. rewrite skipn_all2 by lia.
  replace (length p + a - length p)%nat with a by lia. reflexivity.
Qed.

Lemma firstn_skipn_firstn {A : Type} (s : list A) (a n h : nat) :
  (a + n <= h)%nat ->
  firstn n (skipn a (firstn h s)) = firstn n (skipn a s).
Proof.
  intros H. rewrite skipn_firstn_comm, firstn_firstn. f_equal. lia.
Qed.

Lemma slice_app_l {A : Type} (p q : list A) (a b : Z) :
  0 <= a <= b -> b <= len p -> slice (p ++ q) a b = slice p a b.
Proof.
  intros. unfold slice, sliceTo, sliceFrom, len in *.
  apply firstn_skipn_app_l. lia.
Qed.

Lemma slice_app_r {A : Type} (p q : list A) (a b : Z) :
  0 <= a <= b -> slice (p ++ q) (len p + a) (len p + b) = slice q a b.
Proof.
  intros. unfold slice, sliceTo, sliceFrom, len in *.
  replace (Z.to_nat (Z.of_nat (length p) + a))
    with (length p + Z.to_nat a)%nat by lia.
  rewrite firstn_skipn_app_r. f_equal. lia.
Qed.

Lemma slice_sliceTo {A : Type} (s : list A) (a b h : Z) :
  0 <= a <= b -> b <= h -> slice (sliceTo s h) a b = slice s a b.
Proof.
  intros. unfold slice, sliceTo, sliceFrom.
  apply firstn_skipn_firstn. lia.
Qed.

Lemma slice_sliceFrom {A : Type} (s : list A) (lo a b : Z) :
  0 <= lo -> 0 <= a <= b ->
  slice (sliceFrom s lo) a b = slice s (lo + a) (lo + b).
Proof.
  intros. unfold slice, sliceTo, sliceFrom. rewrite skipn_skipn.
  f_equal; [lia|]. f_equal. lia.
Qed.

Lemma slice_slice {A : Type} (s : list A) (lo hi a b : Z) :
  0 <= lo -> 0 <= a <= b -> b <= hi - lo ->
  slice (slice s lo hi) a b = slice s (lo + a) (lo + b).
Proof.
  intros. unfold slice at 2. rewrite slice_sliceTo by lia.
  apply slice_sliceFrom; lia.
Qed.

Lemma len_slice {A : Type} (s : list A) (lo hi : Z) :
  0 <= lo <= hi -> hi <= len s -> len (slice s lo hi) = hi - lo.
Proof.
  intros. unfold slice. rewrite len_sliceTo; [lia|].
  rewrite len_sliceFrom by lia. lia.
Qed.

Lemma Forall_nth_default {A : Type} (P : A -> Prop) (l : list A) (d : A) (n : nat) :
  Forall P l -> P d -> P (nth n l d).
Proof.
  intros HF Hd. destruct (Nat.lt_ge_cases n (length l)) as [Hn|Hn].
  - rewrite Forall_forall in HF. apply HF. apply nth_In. assumption.
  - rewrite nth_overflow by assumption. assumption.
Qed.

(** ** The highlighter *)

Lemma highlight_focusedSpan (rendered : gostring)
      (links : list followableLink) (focused : Z) :
  highlightFocusedLink rendered links focused =
  let s := focusedSpan rendered links focused in
  if ok s then wrap rendered (start s) (end_ s) else rendered.
Proof.
  unfold highlightFocusedLink, focusedSpan, linkSpans.
  destruct ((focused <? 0) || (len links <=? focused)); [reflexivity|].
  destruct (printableRunesAndOffsets rendered) as [printable offsets].
  cbn [fst]. destruct (len printable =? 0); [reflexivity|].
  cbv zeta. destruct (ok _); reflexivity.
Qed.

(** The focused span, when there is one, is cut at two entries of the
    offsets table. *)
Lemma focusedSpan_table (rendered : gostring)
      (links : list followableLink) (focused : Z) :
  let s := focusedSpan rendered links focused in
  let offsets := snd (printableRunesAndOffsets rendered) in
  ok s = true ->
  In (start s) offsets /\ In (end_ s) offsets
  /\ 0 <= start s <= end_ s /\ end_ s <= len rendered.
Proof.
  cbv zeta. unfold focusedSpan, linkSpans.
  destruct ((focused <? 0) || (len links <=? focused)); [discriminate|].
  destruct (printableRunesAndOffsets rendered) as [printable offsets].
  cbn [fst snd]. destruct (len printable =? 0); [discriminate|].
  pose proof (spanLoop_table rendered (utf8.stringOfRunes printable)
                             offsets links 0) as HF.
  apply (Forall_nth_default _ _ noSpan (Z.to_nat focused)) in HF;
    [|cbn; discriminate].
  intros Hok. destruct (HF Hok) as (a & b & Hab & Hb & Hs & He & Hr & Hl).
  repeat split; try lia.
  - rewrite Hs. apply elemAt_In. lia.
  - rewrite He. apply elemAt_In. lia.
Qed.

(** C5: for a focused index outside [0, len(registry)), in particular -1,
    [highlightFocusedLink] returns the rendered text unchanged, byte for
    byte. *)
Theorem highlight_out_of_range (rendered : gostring)
        (links : list followableLink) (focused : Z) :
  focused < 0 \/ len links <= focused ->
  highlightFocusedLink rendered links focused = rendered.
Proof.
  intros H. unfold highlightFocusedLink.
  destruct ((focused <? 0) || (len links <=? focused)) eqn:Hc; [reflexivity|].
  bool_hyps. lia.
Qed.

Lemma highlight_out_of_range_witness :
  (-1 < 0 \/ len [noLink] <= -1)
  /\ highlightFocusedLink (ESC :: bytes "[1mhere") [noLink] (-1)
     = ESC :: bytes "[1mhere".
Proof.
  split; [left; lia|].
  apply (highlight_out_of_range (ESC :: bytes "[1mhere") [noLink] (-1)).
  left. lia.
Defined.

(** C10: the table [printableRunesAndOffsets] returns has one entry per
    printable rune plus a sentinel, is strictly increasing, gives for each
    printable rune a byte index of [s] at which that rune starts, and ends
    with [len(s)]; hence any two entries taken in order, and so every span
    the highlighter cuts from the table, satisfy
    [0 <= start <= end <= len(s)]. *)
Theorem printableRunesAndOffsets_table (s : gostring) :
  let runes := fst (printableRunesAndOffsets s) in
  let offsets := snd (printableRunesAndOffsets s) in
  len offsets = len runes + 1
  /\ StronglySorted Z.lt offsets
  /\ (forall k, 0 <= k < len runes ->
                printableAt s (elemAt offsets k) (elemAt runes k))
  /\ elemAt offsets (len runes) = len s
  /\ (forall a b, 0 <= a <= b -> b <= len offsets - 1 ->
                  0 <= elemAt offsets a <= elemAt offsets b
                  /\ elemAt offsets b <= len s)
  /\ (forall links,
         Forall (fun sp => ok sp = true ->
                           0 <= start sp <= end_ sp /\ end_ sp <= len s)
                (linkSpans s links)).
Proof.
  cbv zeta.
  destruct (printableRunesAndOffsets_spec s) as (runes & offs & Heq & HF2 & HS & HF).
  unfold linkSpans. rewrite Heq. cbn [fst snd].
  pose proof (Forall2_len _ _ _ HF2) as Hlen.
  assert (Hall : Forall (fun o => 0 <= o <= len s) (offs ++ [len s])).
  { apply Forall_app. split.
    - eapply Forall_impl; [|exact HF]. cbn beta. intros; lia.
    - constructor; [|constructor]. pose proof (len_nonneg s). lia. }
  split; [lens; lia|]. split; [exact HS|]. split; [|split; [|split]].
  - intros k Hk. rewrite elemAt_app_l by lia.
    apply (Forall2_elemAt _ _ _ HF2 k). lia.
  - rewrite Hlen. apply elemAt_last.
  - intros a b Hab Hb. lens. rewrite Forall_forall in Hall.
    pose proof (Hall (elemAt (offs ++ [len s]) a)) as Ha.
    pose proof (Hall (elemAt (offs ++ [len s]) b)) as Hb'.
    pose proof (elemAt_mono (offs ++ [len s]) a b HS) as Hm.
    specialize (Ha ltac:(apply elemAt_In; lens; lia)).
    specialize (Hb' ltac:(apply elemAt_In; lens; lia)).
    lens. lia.
  - intros links.
    pose proof (spanLoop_table s (utf8.stringOfRunes runes)
                               (offs ++ [len s]) links 0) as Hsp.
    eapply Forall_impl; [|exact Hsp]. cbn beta. intros sp H Hok.
    destruct (H Hok) as (a & b & _ & _ & _ & _ & Hr & Hl). lia.
Qed.

Lemma wrap_slice_before (rendered : gostring) (st en a b : Z) :
  0 <= st <= en -> en <= len rendered -> 0 <= a <= b -> b <= st ->
  slice (wrap rendered st en) a b = slice rendered a b.
Proof.
  intros. unfold wrap.
  rewrite slice_app_l by (try rewrite len_sliceTo; lia).
  apply slice_sliceTo; lia.
Qed.

Lemma wrap_slice_inside (rendered : gostring) (st en a b : Z) :
  0 <= st <= en -> en <= len rendered -> st <= a <= b -> b <= en ->
  slice (wrap rendered st en) (a + len reverseOn) (b + len reverseOn)
  = slice rendered a b.
Proof.
  intros. unfold wrap.
  assert (Hpre : len (sliceTo rendered st) = st) by (apply len_sliceTo; lia).
  replace (a + len reverseOn)
    with (len (sliceTo rendered st) + (len reverseOn + (a - st))) by lia.
  replace (b + len reverseOn)
    with (len (sliceTo rendered st) + (len reverseOn + (b - st))) by lia.
  pose proof (len_nonneg reverseOn).
  rewrite slice_app_r by lia. rewrite slice_app_r by lia.
  rewrite slice_app_l by (try rewrite len_slice; lia).
  rewrite slice_slice by lia. f_equal; lia.
Qed.

Lemma wrap_slice_after (rendered : gostring) (st en a b : Z) :
  0 <= st <= en -> en <= len rendered -> en <= a <= b ->
  slice (wrap rendered st en)
        (a + (len reverseOn + len reverseOff))
        (b + (len reverseOn + len reverseOff))
  = slice rendered a b.
Proof.
  intros. unfold wrap.
  assert (Hpre : len (sliceTo rendered st) = st) by (apply len_sliceTo; lia).
  assert (Hmid : len (slice rendered st en) = en - st) by (apply len_slice; lia).
  pose proof (len_nonneg reverseOn). pose proof (len_nonneg reverseOff).
  replace (a + (len reverseOn + len reverseOff))
    with (len (sliceTo rendered st)
          + (len reverseOn
             + (len (slice rendered st en) + (len reverseOff + (a - en)))))
    by lia.
  replace (b + (len reverseOn + len reverseOff))
    with (len (sliceTo rendered st)
          + (len reverseOn
             + (len (slice rendered st en) + (len reverseOff + (b - en)))))
    by lia.
  rewrite slice_app_r by lia. rewrite slice_app_r by lia.
  rewrite slice_app_r by lia. rewrite slice_app_r by lia.
  rewrite slice_sliceFrom by lia. f_equal; lia.
Qed.

(** C4: when no span is highlighted the output is the input; when one is,
    the output is the input with the reverse-video start marker inserted
    at the span's start and the end marker at its end, every other byte
    unchanged, and no escape sequence of the input is split: each lies
    wholly before the start marker, between the markers or after the end
    marker, so it stands in the output intact, moved by the length of the
    markers inserted before it; that move keeps the order of positions,
    so the sequences stand in the output in their original order. *)
Theorem highlight_keeps_escape_sequences (rendered : gostring)
        (links : list followableLink) (focused : Z) :
  let out := highlightFocusedLink rendered links focused in
  let s := focusedSpan rendered links focused in
  if ok s then
    0 <= start s <= end_ s /\ end_ s <= len rendered
    /\ out = sliceTo rendered (start s) ++ reverseOn
             ++ slice rendered (start s) (end_ s) ++ reverseOff
             ++ sliceFrom rendered (end_ s)
    /\ Forall (fun ab =>
                 let a := fst ab in
                 let b := snd ab in
                 (b <= start s \/ (start s <= a /\ b <= end_ s) \/ end_ s <= a)
                 /\ slice out (a + shiftOf (start s) (end_ s) a)
                          (b + shiftOf (start s) (end_ s) a)
                    = slice rendered a b)
              (escapeSequences rendered)
    /\ (forall a a', a < a' ->
          a + shiftOf (start s) (end_ s) a < a' + shiftOf (start s) (end_ s) a')
  else out = rendered.
Proof.
  cbv zeta. rewrite highlight_focusedSpan. cbv zeta.
  pose proof (focusedSpan_table rendered links focused) as Ht. cbv zeta in Ht.
  destruct (ok (focusedSpan rendered links focused)); [|reflexivity].
  destruct (Ht eq_refl) as (Hst & Hen & Hb & Hl). clear Ht.
  set (st := start (focusedSpan rendered links focused)) in *.
  set (en := end_ (focusedSpan rendered links focused)) in *.
  split; [exact Hb|]. split; [exact Hl|]. split; [reflexivity|].
  split.
  2:{ intros a a' Haa. unfold shiftOf.
      change (len reverseOn) with 4. change (len reverseOff) with 5.
      destruct (Z.ltb_spec a st), (Z.ltb_spec a en),
        (Z.ltb_spec a' st), (Z.ltb_spec a' en); lia. }
  pose proof (escapeSequences_table rendered) as He.
  eapply Forall_impl; [|exact He]. cbn beta.
  intros [a b]. cbn [fst snd]. intros (Ha & Hab & Hbl & Hoff).
  rewrite Forall_forall in Hoff.
  pose proof (Hoff _ Hst) as H1. pose proof (Hoff _ Hen) as H2.
  split; [lia|]. unfold shiftOf.
  destruct (a <? st) eqn:C1; bool_hyps.
  - rewrite !Z.add_0_r. apply wrap_slice_before; lia.
  - destruct (a <? en) eqn:C2; bool_hyps.
    + apply wrap_slice_inside; lia.
    + apply wrap_slice_after; lia.
Qed.

(** ** Trimming *)

Lemma trimLeftASCII_spec (cutset : gostring) (s : gostring) :
  exists a,
    s = a ++ strings.trimLeftASCII s cutset
    /\ Forall (fun c => strings.inSet cutset c = true) a
    /\ (forall c r, strings.trimLeftASCII s cutset = c :: r ->
                    strings.inSet cutset c = false).
Proof.
  induction s as [|c s IH]; cbn [strings.trimLeftASCII].
  - exists []. repeat split; [constructor|discriminate].
  - destruct (strings.inSet cutset c) eqn:Hc.
    + destruct IH as (a & Hs & Ha & Hh). exists (c :: a). repeat split.
      * cbn [app]. f_equal. exact Hs.
      * constructor; assumption.
      * exact Hh.
    + exists []. repeat split; [constructor|].
      intros c' r H. inversion H; subst. exact Hc.
Qed.

Lemma trimRightASCII_spec (cutset : gostring) (s : gostring) :
  exists b,
    s = strings.trimRightASCII s cutset ++ b
    /\ Forall (fun c => strings.inSet cutset c = true) b
    /\ (forall c r, strings.trimRightASCII s cutset = r ++ [c] ->
                    strings.inSet cutset c = false).
Proof.
  unfold strings.trimRightASCII.
  destruct (trimLeftASCII_spec cutset (rev s)) as (a & Hs & Ha & Hh).
  exists (rev a). repeat split.
  - rewrite <- rev_app_distr, <- Hs. symmetry. apply rev_involutive.
  - apply Forall_rev. exact Ha.
  - intros c r H. apply (Hh c (rev r)).
    rewrite <- (rev_involutive (strings.trimLeftASCII (rev s) cutset)), H.
    rewrite rev_app_distr. reflexivity.
Qed.

Lemma Trim_spec (cutset : gostring) (s : gostring) :
  exists a b,
    s = a ++ strings.Trim s cutset ++ b
    /\ Forall (fun c => strings.inSet cutset c = true) a
    /\ Forall (fun c => strings.inSet cutset c = true) b
    /\ (forall c r, strings.Trim s cutset = c :: r ->
                    strings.inSet cutset c = false)
    /\ (forall c r, strings.Trim s cutset = r ++ [c] ->
                    strings.inSet cutset c = false).
Proof.
  unfold strings.Trim.
  destruct (trimRightASCII_spec cutset s) as (b & Hs & Hb & Hl).
  destruct (trimLeftASCII_spec cutset (strings.trimRightASCII s cutset))
    as (a & Ht & Ha & Hh).
  exists a, b. repeat split; try assumption.
  - rewrite app_assoc, <- Ht. exact Hs.
  - intros c r H. apply (Hl c (a ++ r)).
    rewrite Ht at 1. rewrite H. apply app_assoc.
Qed.

(** ** The classifier and the resolver *)

Section LinkProperties.
Context {E : Extern}.

Lemma resolvePath_ok (rootDir currentFilePath h path frag : gostring)
      (link : followableLink) (err : option gostring) :
  resolvePath rootDir currentFilePath h path frag = (link, true, err) ->
  exists rootAbs resAbs root res info,
    filepath_Abs rootDir = Ok rootAbs
    /\ filepath_Abs
         (filepath_Clean (filepath_Join (filepath_Dir currentFilePath) path))
       = Ok resAbs
    /\ root = evalSymlinksOrKeep rootAbs
    /\ res = evalSymlinksOrKeep resAbs
    /\ insideRoot root res
    /\ os_Stat res = Ok info /\ IsRegular info = true
    /\ err = None
    /\ link = {| Href := h; Path := path; Fragment := frag; Label := [];
                 ResolvedPath := res;
                 ResolvedNote := stripAbsolutePath res root |}.
Proof.
  unfold resolvePath. intros H.
  destruct (filepath_Abs rootDir) as [rootAbs|e] eqn:Hroot; [|discriminate].
  destruct (filepath_Abs
              (filepath_Clean
                 (filepath_Join (filepath_Dir currentFilePath) path)))
    as [resAbs|e] eqn:Hres; [|discriminate].
  set (root := match filepath_EvalSymlinks rootAbs with
               | Ok rootEval => rootEval | Err _ => rootAbs end) in *.
  set (res := match filepath_EvalSymlinks resAbs with
              | Ok resEval => resEval | Err _ => resAbs end) in *.
  destruct (filepath_Rel root res) as [rel|e] eqn:Hrel; [|discriminate].
  destruct (eqs rel (bytes "..")
            || strings.HasPrefix rel (bytes ".." ++ [os_PathSeparator]))
    eqn:Hesc; [discriminate|].
  apply orb_false_elim in Hesc. destruct Hesc as [Hdd Hpre].
  apply eqs_false in Hdd.
  destruct (os_Stat res) as [info|e] eqn:Hstat; [|discriminate].
  destruct (IsRegular info) eqn:Hreg; cbn [negb] in H; [|discriminate].
  inversion H; subst link err.
  exists rootAbs, resAbs, root, res, info.
  repeat split; try assumption; try reflexivity.
  exists rel. repeat split; assumption.
Qed.

Lemma resolveFollowableLink_ok (rootDir currentFilePath href : gostring)
      (link : followableLink) (err : option gostring) :
  resolveFollowableLink rootDir currentFilePath href = (link, true, err) ->
  let h := normalizeHref href in
  let path := strings.TrimSpace (fst (splitFragment h)) in
  isFollowableHref h = true
  /\ path <> []
  /\ resolvePath rootDir currentFilePath h (decodePath path)
                 (snd (splitFragment h)) = (link, true, err).
Proof.
  unfold resolveFollowableLink. fold (normalizeHref href). cbv zeta.
  destruct (isFollowableHref (normalizeHref href)); cbn [negb]; [|discriminate].
  destruct (splitFragment (normalizeHref href)) as [path frag]. cbn [fst snd].
  destruct (eqs (strings.TrimSpace path) []) eqn:He; [discriminate|].
  apply eqs_false in He. intros H. repeat split; assumption.
Qed.

Lemma resolveAll_labels (rootDir currentFilePath : gostring) (raw : list rawLink) :
  forall out,
    fst (resolveAll rootDir currentFilePath raw) = out ->
    Forall (fun l =>
              strings.TrimSpace (Label l) <> []
              /\ exists href link,
                  resolveFollowableLink rootDir currentFilePath href
                  = (link, true, None)
                  /\ ResolvedPath l = ResolvedPath link) out.
Proof.
  induction raw as [|r raw IH]; intros out Hout; cbn [resolveAll] in Hout.
  - subst out. constructor.
  - destruct (resolveFollowableLink rootDir currentFilePath (href r))
      as [[link ok] [err|]] eqn:Hres.
    { subst out. constructor. }
    destruct (resolveAll rootDir currentFilePath raw) as [out' [err|]] eqn:Hrec.
    { subst out. constructor. }
    specialize (IH out' eq_refl).
    destruct ok; cbn [negb] in Hout; [|subst out; exact IH].
    destruct (eqs (strings.TrimSpace (label r)) []) eqn:Hl;
      cbn [fst] in Hout; subst out; [exact IH|].
    apply eqs_false in Hl. constructor; [|exact IH].
    cbn [withLabel Label ResolvedPath]. split; [exact Hl|].
    exists (href r), link. split; [exact Hres|reflexivity].
Qed.

End LinkProperties.

Section Registry.
Context {E : Extern} {L : FileSystemLaws}.

(** C1: every link [followableLinksForDocument] returns satisfies the
    registry invariant: its [ResolvedPath] is absolute, symlink-evaluated
    (evaluating its symlinks again changes nothing), stats as a regular
    file, lies inside the evaluated root (its path relative to that root
    is neither [..] nor starts with [..] and the separator), and its
    [Label] is not empty once trimmed.  In particular no link of the
    result has a relative path that leaves the root, whether the href
    walks out with [..] or through a symlink.  The file-system functions
    are those of [Extern], which keep to [FileSystemLaws]. *)
Theorem registry_invariant (rootDir currentFilePath markdown : gostring) :
  let registry :=
    fst (followableLinksForDocument rootDir currentFilePath markdown) in
  Forall (registryInvariant rootDir) registry
  /\ (forall l root rel,
         In l registry ->
         evaluatedRoot rootDir = Some root ->
         filepath_Rel root (ResolvedPath l) = Ok rel ->
         rel <> bytes ".."
         /\ strings.HasPrefix rel (bytes ".." ++ [os_PathSeparator]) = false).
Proof.
  cbv zeta.
  assert (HF : Forall (registryInvariant rootDir)
                 (fst (followableLinksForDocument rootDir currentFilePath
                                                  markdown))).
  { unfold followableLinksForDocument.
    eapply Forall_impl; [|apply (resolveAll_labels _ _ _ _ eq_refl)].
    cbn beta. intros l (Hlabel & href & link & Hres & Hpath).
    apply resolveFollowableLink_ok in Hres. cbv zeta in Hres.
    destruct Hres as (_ & _ & Hres). apply resolvePath_ok in Hres.
    destruct Hres as (rootAbs & resAbs & root & res & info & Hroot & Hres
                      & Hr & He & Hin & Hstat & Hreg & _ & Hlink).
    assert (Hp : ResolvedPath l = res) by (rewrite Hpath, Hlink; reflexivity).
    assert (Habs : filepath_IsAbs resAbs = true) by (eapply Abs_IsAbs; eassumption).
    assert (Heval : filepath_IsAbs res = true
                    /\ evalSymlinksOrKeep res = res).
    { subst res. unfold evalSymlinksOrKeep.
      destruct (filepath_EvalSymlinks resAbs) as [e|msg] eqn:Hev.
      - split; [eapply EvalSymlinks_IsAbs; eassumption|].
        rewrite (EvalSymlinks_evaluated _ _ Hev). reflexivity.
      - split; [exact Habs|]. rewrite Hev. reflexivity. }
    destruct Heval as [Hisabs Hfix].
    unfold registryInvariant. rewrite Hp. repeat split; try assumption.
    - exists info. split; assumption.
    - exists root. split; [|exact Hin].
      unfold evaluatedRoot. rewrite Hroot, Hr. reflexivity. }
  split; [exact HF|].
  intros l root rel Hl Hroot Hrel.
  rewrite Forall_forall in HF. specialize (HF l Hl).
  destruct HF as (_ & _ & _ & (root' & Hroot' & rel' & Hrel' & Hne & Hpre) & _).
  rewrite Hroot in Hroot'. inversion Hroot'; subst root'.
  rewrite Hrel in Hrel'. inversion Hrel'; subst rel'. split; assumption.
Qed.

End Registry.

Lemma sample_Clean_IsAbs (p : gostring) : sample.IsAbs (sample.Clean p) = true.
Proof.
  unfold sample.Clean.
  destruct (rev (fold_left sample.cleanStep (sample.splitSlash p) []));
    [reflexivity|].
  cbn [flat_map]. unfold sample.IsAbs. cbn. destruct (_ ++ _); reflexivity.
Qed.

Lemma sample_follow_fixed (q : gostring) :
  sample.mem q sample.files || sample.mem q sample.dirs = true ->
  sample.follow q = q /\ sample.IsAbs q = true.
Proof.
  intros H. apply orb_prop in H. unfold sample.mem in H.
  rewrite !existsb_exists in H.
  destruct H as [(x & Hin & Hx)|(x & Hin & Hx)]; apply eqs_true in Hx;
    subst x; cbn [sample.files sample.dirs In] in Hin;
    repeat (destruct Hin as [<-|Hin]; [split; reflexivity|]);
    contradiction.
Qed.

Lemma sample_laws : FileSystemLaws (E := sample.world).
Proof.
  constructor; cbn [filepath_Abs filepath_IsAbs filepath_EvalSymlinks os_Stat
                    sample.world].
  - intros p q H. unfold sample.Abs in H. inversion H; subst q.
    apply sample_Clean_IsAbs.
  - intros p q _ H. unfold sample.EvalSymlinks in H.
    destruct (sample.mem (sample.follow p) sample.files
              || sample.mem (sample.follow p) sample.dirs) eqn:Hm;
      inversion H; subst q.
    apply sample_follow_fixed. exact Hm.
  - intros p q H. unfold sample.EvalSymlinks in H.
    destruct (sample.mem (sample.follow p) sample.files
              || sample.mem (sample.follow p) sample.dirs) eqn:Hm;
      inversion H; subst q.
    destruct (sample_follow_fixed _ Hm) as [Hf _].
    unfold sample.EvalSymlinks. rewrite Hf, Hm. reflexivity.
Qed.

Lemma registry_invariant_witness :
  let registry :=
    fst (followableLinksForDocument (E := sample.world) (bytes "/root")
           (bytes "/root/current.md") sample.docTarget) in
  Forall (registryInvariant (E := sample.world) (bytes "/root")) registry
  /\ (forall l root rel,
         In l registry ->
         evaluatedRoot (E := sample.world) (bytes "/root") = Some root ->
         filepath_Rel (Extern := sample.world) root (ResolvedPath l) = Ok rel ->
         rel <> bytes ".."
         /\ strings.HasPrefix rel (bytes ".." ++ [os_PathSeparator (Extern := sample.world)]) = false).
Proof.
  exact (registry_invariant (E := sample.world) (L := sample_laws)
           (bytes "/root") (bytes "/root/current.md") sample.docTarget).
Defined.

(** ** Case folding and extensions *)

Lemma range_ascii_head (c : ascii) (s : gostring) :
  byteval c < utf8.RuneSelf ->
  utf8.range (c :: s) = (byteval c, 1) :: utf8.range s.
Proof.
  intros Hc. unfold utf8.range. cbn [length utf8.rangeLoop].
  unfold utf8.DecodeRuneInString, utf8.first. unfold utf8.RuneSelf in Hc.
  apply Z.ltb_lt in Hc. rewrite Hc. reflexivity.
Qed.

Lemma ToLower_ascii_head (table : Z -> Z) (c : ascii) (s : gostring) :
  byteval c < utf8.RuneSelf ->
  strings.ToLower table (c :: s)
  = strings.lowerByte c :: strings.ToLower table s.
Proof.
  intros Hc. unfold strings.ToLower. cbn [forallb].
  pose proof Hc as Hc'. apply Z.ltb_lt in Hc'. rewrite Hc'. cbn [andb].
  destruct (forallb (fun c0 => byteval c0 <? utf8.RuneSelf) s); [reflexivity|].
  unfold strings.Map. rewrite range_ascii_head by assumption.
  cbn [flat_map]. f_equal.
  unfold utf8.RuneSelf in Hc. pose proof (byteval_range c) as Hr.
  unfold unicode.ToLower, strings.lowerByte.
  replace ((0 <=? byteval c) && (byteval c <=? 127)) with true
    by (symmetry; apply andb_true_intro; split;
        [apply Z.leb_le|apply Z.leb_le]; lia).
  destruct ((65 <=? byteval c) && (byteval c <=? 90)) eqn:Hu; bool_hyps.
  - replace (0 <=? byteval c + 32) with true by (symmetry; apply Z.leb_le; lia).
    unfold utf8.EncodeRune, utf8.rune1Max.
    replace ((0 <=? byteval c + 32) && (byteval c + 32 <=? 127)) with true
      by (symmetry; apply andb_true_intro; split; apply Z.leb_le; lia).
    reflexivity.
  - replace (0 <=? byteval c) with true by (symmetry; apply Z.leb_le; lia).
    unfold utf8.EncodeRune, utf8.rune1Max.
    replace ((0 <=? byteval c) && (byteval c <=? 127)) with true
      by (symmetry; apply andb_true_intro; split; apply Z.leb_le; lia).
    rewrite byteof_byteval. reflexivity.
Qed.

Lemma lowerByte_ascii (c p : ascii) :
  lowerASCII p -> strings.lowerByte c = p -> byteval c < utf8.RuneSelf.
Proof.
  intros [Hp _] H. unfold strings.lowerByte in H. unfold utf8.RuneSelf in *.
  destruct ((65 <=? byteval c) && (byteval c <=? 90)) eqn:Hu; bool_hyps.
  - lia.
  - subst p. exact Hp.
Qed.

Lemma ToLower_prefix (table : Z -> Z) (prefix : gostring) :
  Forall lowerASCII prefix ->
  forall s, hasPrefixFold s prefix = true ->
            strings.HasPrefix (strings.ToLower table s) prefix = true.
Proof.
  induction 1 as [|p prefix Hp HF IH]; intros s H.
  - destruct (strings.ToLower table s); reflexivity.
  - destruct s as [|c s]; cbn [hasPrefixFold] in H; [discriminate|].
    apply andb_prop in H. destruct H as [Hc Hs].
    apply Ascii.eqb_eq in Hc. destruct Hp as [Hp1 Hp2]. rewrite Hp2 in Hc.
    rewrite ToLower_ascii_head
      by (eapply lowerByte_ascii; [split; eassumption|exact Hc]).
    cbn [strings.HasPrefix]. rewrite Hc, Ascii.eqb_refl. cbn [andb].
    apply IH. exact Hs.
Qed.

Lemma HasSuffix_app (s suffix : gostring) :
  strings.HasSuffix s suffix = true -> exists pre, s = pre ++ suffix.
Proof.
  unfold strings.HasSuffix. intros H. apply andb_prop in H.
  destruct H as [Hl He]. apply eqs_true in He. apply Z.leb_le in Hl.
  exists (sliceTo s (len s - len suffix)). rewrite <- He at 2.
  unfold sliceTo, sliceFrom. symmetry. apply firstn_skipn.
Qed.

Lemma pathExt_md (s : gostring) :
  strings.HasSuffix s (bytes ".md") = true -> pathExt s = bytes ".md".
Proof.
  intros H. apply HasSuffix_app in H. destruct H as [pre ->].
  unfold pathExt. rewrite rev_app_distr. reflexivity.
Qed.

Lemma pathExt_markdown (s : gostring) :
  strings.HasSuffix s (bytes ".markdown") = true ->
  pathExt s = bytes ".markdown".
Proof.
  intros H. apply HasSuffix_app in H. destruct H as [pre ->].
  unfold pathExt. rewrite rev_app_distr. reflexivity.
Qed.

Section Classifier.
Context {E : Extern}.

Lemma mailto_lower : Forall lowerASCII (bytes "mailto:").
Proof. repeat constructor. Qed.

(** C2: [resolveFollowableLink] rejects the link without an error
    ([ok = false], [err = nil]) whenever the trimmed href (the href the
    classifier tests) contains [://], or begins with [mailto:] in any
    case, or has a path portion (what precedes the first [#]) that starts
    with [/], with two backslashes or with a drive letter and a colon, or
    has a path portion whose extension, in lower case, is neither [.md]
    nor [.markdown]. *)
Theorem resolve_rejects_unfollowable (rootDir currentFilePath href : gostring) :
  let t := classifiedHref href in
  let path := fst (splitFragment t) in
  let ext := pathExt (strings.ToLower unicode_caseTable path) in
  strings.Contains t (bytes "://") = true
  \/ hasPrefixFold t (bytes "mailto:") = true
  \/ (strings.HasPrefix path (bytes "/") = true
      \/ strings.HasPrefix path (bytes "\\") = true
      \/ hasDriveLetter path = true)
  \/ (ext <> bytes ".md" /\ ext <> bytes ".markdown") ->
  resolveFollowableLink rootDir currentFilePath href = (noLink, false, None).
Proof.
  cbv zeta. intros H.
  assert (Hc : isFollowableHref (normalizeHref href) = false).
  { unfold isFollowableHref. fold (normalizeHref (normalizeHref href)).
    fold (classifiedHref href). cbv zeta.
    destruct (strings.Contains (classifiedHref href) (bytes "://")) eqn:H1;
      [reflexivity|].
    destruct (strings.HasPrefix
                (strings.ToLower unicode_caseTable (classifiedHref href))
                (bytes "mailto:")) eqn:H2; [reflexivity|].
    cbn [orb].
    destruct H as [H|[H|[H|H]]]; [discriminate| | |].
    - rewrite (ToLower_prefix _ _ mailto_lower _ H) in H2. discriminate.
    - destruct (splitFragment (classifiedHref href)) as [path frag].
      cbn [fst] in H.
      replace (isAbsoluteOrUNCPath path) with true; [reflexivity|].
      symmetry. unfold isAbsoluteOrUNCPath.
      destruct (strings.HasPrefix path (bytes "/")); [reflexivity|].
      destruct (strings.HasPrefix path (bytes "\\")); [reflexivity|].
      destruct H as [H|[H|H]]; try discriminate.
      unfold hasDriveLetter in H. rewrite H. reflexivity.
    - destruct (splitFragment (classifiedHref href)) as [path frag].
      cbn [fst] in H. destruct H as [Hmd Hmarkdown].
      destruct (isAbsoluteOrUNCPath path); [reflexivity|].
      apply orb_false_intro.
      + destruct (strings.HasSuffix _ (bytes ".md")) eqn:Hs; [|reflexivity].
        apply pathExt_md in Hs. contradiction.
      + destruct (strings.HasSuffix _ (bytes ".markdown")) eqn:Hs; [|reflexivity].
        apply pathExt_markdown in Hs. contradiction. }
  unfold resolveFollowableLink. fold (normalizeHref href). cbv zeta.
  rewrite Hc. reflexivity.
Qed.

End Classifier.

Lemma resolve_rejects_unfollowable_witness :
  (let t := classifiedHref (bytes "<https://example.com/docs/target.md>") in
   let path := fst (splitFragment t) in
   let ext := pathExt (strings.ToLower (unicode_caseTable (Extern := sample.world)) path) in
   strings.Contains t (bytes "://") = true
   \/ hasPrefixFold t (bytes "mailto:") = true
   \/ (strings.HasPrefix path (bytes "/") = true
       \/ strings.HasPrefix path (bytes "\\") = true
       \/ hasDriveLetter path = true)
   \/ (ext <> bytes ".md" /\ ext <> bytes ".markdown"))
  /\ resolveFollowableLink (E := sample.world) (bytes "/root")
       (bytes "/root/current.md") (bytes "<https://example.com/docs/target.md>")
     = (noLink, false, None).
Proof.
  split; [left; reflexivity|].
  apply (resolve_rejects_unfollowable (E := sample.world)).
  left. reflexivity.
Defined.

Section Decoding.
Context {E : Extern}.

(** C6: for an href whose path portion contains a [%],
    [resolveFollowableLink] percent-decodes the path portion before it
    joins and resolves it: once the href has passed the classifier, the
    result is the resolution (join with the directory of the current
    file, clean, root test, stat) of the decoded path, and, when the
    decoding fails, the resolution of the raw path: the failure neither
    rejects the link nor is it returned as an error.  An accepted link
    records the path that was resolved and the file reached by joining
    that path. *)
Theorem resolve_decodes_path (rootDir currentFilePath href : gostring) :
  let h := normalizeHref href in
  let path := strings.TrimSpace (fst (splitFragment h)) in
  let frag := snd (splitFragment h) in
  let used := match url.PathUnescape path with
              | Some decoded => decoded
              | None => path
              end in
  strings.Contains path (bytes "%") = true ->
  resolveFollowableLink rootDir currentFilePath href
  = (if isFollowableHref h
     then resolvePath rootDir currentFilePath h used frag
     else (noLink, false, None))
  /\ (forall link,
         resolveFollowableLink rootDir currentFilePath href
         = (link, true, None) ->
         Path link = used
         /\ exists resAbs,
             filepath_Abs
               (filepath_Clean
                  (filepath_Join (filepath_Dir currentFilePath) used))
             = Ok resAbs
             /\ ResolvedPath link = evalSymlinksOrKeep resAbs).
Proof.
  cbv zeta. intros Hpct.
  assert (Hne : strings.TrimSpace (fst (splitFragment (normalizeHref href)))
                <> []).
  { intros H. rewrite H in Hpct. discriminate Hpct. }
  assert (Heq : resolveFollowableLink rootDir currentFilePath href
                = if isFollowableHref (normalizeHref href)
                  then resolvePath rootDir currentFilePath (normalizeHref href)
                         match url.PathUnescape
                                 (strings.TrimSpace
                                    (fst (splitFragment (normalizeHref href)))) with
                         | Some decoded => decoded
                         | None =>
                           strings.TrimSpace
                             (fst (splitFragment (normalizeHref href)))
                         end
                         (snd (splitFragment (normalizeHref href)))
                  else (noLink, false, None)).
  { unfold resolveFollowableLink. fold (normalizeHref href). cbv zeta.
    destruct (isFollowableHref (normalizeHref href)); cbn [negb];
      [|reflexivity].
    destruct (splitFragment (normalizeHref href)) as [path frag].
    cbn [fst snd] in *. apply eqs_false in Hne. rewrite Hne.
    unfold decodePath. rewrite Hpct. reflexivity. }
  split; [exact Heq|].
  intros link Hok. rewrite Heq in Hok.
  destruct (isFollowableHref (normalizeHref href)); [|discriminate Hok].
  apply resolvePath_ok in Hok.
  destruct Hok as (rootAbs & resAbs & root & res & info & _ & Hres
                   & _ & He & _ & _ & _ & _ & Hlink).
  subst link. cbn [Path ResolvedPath]. split; [reflexivity|].
  exists resAbs. split; [exact Hres|exact He].
Qed.

End Decoding.

Lemma resolve_decodes_path_witness :
  strings.Contains
    (strings.TrimSpace
       (fst (splitFragment (normalizeHref (bytes "docs/SPACE%20NAME.md")))))
    (bytes "%") = true
  /\ resolveFollowableLink (E := sample.world) (bytes "/root")
       (bytes "/root/current.md") (bytes "docs/SPACE%20NAME.md")
     = resolvePath (E := sample.world) (bytes "/root")
         (bytes "/root/current.md") (bytes "docs/SPACE%20NAME.md")
         (bytes "docs/SPACE NAME.md") [].
Proof.
  split; [reflexivity|].
  apply (resolve_decodes_path (E := sample.world) (bytes "/root")
           (bytes "/root/current.md") (bytes "docs/SPACE%20NAME.md")).
  reflexivity.
Defined.

(** The two samples of the decoding step: [%20] is decoded before the
    path is joined, and a [%] that starts no escape leaves the raw path,
    which then resolves to the file of that name. *)
Example resolve_percent_samples :
  map (fun l => (Path l, ResolvedPath l))
      (fst (followableLinksForDocument (E := sample.world) (bytes "/root")
              (bytes "/root/current.md") sample.docPercent))
  = [ (bytes "100%.md", bytes "/root/100%.md");
      (bytes "docs/SPACE NAME.md", bytes "/root/docs/SPACE NAME.md") ]
  /\ url.PathUnescape (bytes "100%.md") = None
  /\ url.PathUnescape (bytes "docs/SPACE%20NAME.md")
     = Some (bytes "docs/SPACE NAME.md").
Proof. vm_compute. repeat split. Qed.

Section Normalization.
Context {E : Extern}.

(** C7, as the code has it: both functions trim the surrounding
    whitespace of [href] and then remove every leading and every trailing
    [<] or [>], however many there are and whether or not they match:
    what is left is the trimmed href without a run of angle brackets at
    each end, and neither starts nor ends with one.  The classifier and
    the resolver depend on [href] through this normal form only, and an
    accepted link records it as [Href]. *)
Theorem normalizeHref_strips_all_brackets (href : gostring) :
  (exists a b,
      strings.TrimSpace href = a ++ normalizeHref href ++ b
      /\ Forall (fun c => isAngle c = true) a
      /\ Forall (fun c => isAngle c = true) b)
  /\ (forall c r, normalizeHref href = c :: r -> isAngle c = false)
  /\ (forall c r, normalizeHref href = r ++ [c] -> isAngle c = false)
  /\ (forall href',
         normalizeHref href' = normalizeHref href ->
         isFollowableHref href' = isFollowableHref href
         /\ forall rootDir currentFilePath,
             resolveFollowableLink rootDir currentFilePath href'
             = resolveFollowableLink rootDir currentFilePath href)
  /\ (forall rootDir currentFilePath link,
         resolveFollowableLink rootDir currentFilePath href
         = (link, true, None) ->
         Href link = normalizeHref href).
Proof.
  destruct (Trim_spec (bytes "<>") (strings.TrimSpace href))
    as (a & b & Hs & Ha & Hb & Hh & Hl).
  fold (normalizeHref href) in Hs, Hh, Hl.
  split; [exists a, b; repeat split; assumption|].
  split; [exact Hh|]. split; [exact Hl|]. split.
  - intros href' Heq. split.
    + unfold isFollowableHref. fold (normalizeHref href').
      fold (normalizeHref href). rewrite Heq. reflexivity.
    + intros rootDir currentFilePath. unfold resolveFollowableLink.
      fold (normalizeHref href'). fold (normalizeHref href).
      rewrite Heq. reflexivity.
  - intros rootDir currentFilePath link Hok.
    apply resolveFollowableLink_ok in Hok. cbv zeta in Hok.
    destruct Hok as (_ & _ & Hok). apply resolvePath_ok in Hok.
    destruct Hok as (? & ? & ? & ? & ? & _ & _ & _ & _ & _ & _ & _ & _ & ->).
    reflexivity.
Qed.

End Normalization.

(** C7, as the claim has it, fails on a destination wrapped in two layers
    of angle brackets: stripping one layer would leave [<docs/target.md>],
    which does not end in [.md]; the code removes both layers, classifies
    the href as followable and resolves it. *)
Lemma normalizeHref_two_layers :
  normalizeHref_spec (bytes "<<docs/target.md>>") = bytes "<docs/target.md>"
  /\ normalizeHref (bytes "<<docs/target.md>>") = bytes "docs/target.md"
  /\ isFollowableHref (E := sample.world) (bytes "<<docs/target.md>>") = true
  /\ (let '(link, ok, err) :=
        resolveFollowableLink (E := sample.world) (bytes "/root")
          (bytes "/root/current.md") (bytes "<<docs/target.md>>") in
      (Href link, ok, err)) = (bytes "docs/target.md", true, None)
  /\ normalizeHref (bytes "<docs/target.md") = bytes "docs/target.md"
  /\ normalizeHref (bytes ">>docs/target.md<") = bytes "docs/target.md".
Proof. vm_compute. repeat split. Qed.

(** ** Navigation *)

Section Navigation.
Context {E : Extern} {T : Terminal}.

(** C9, as the code has it: with an empty history, back changes nothing
    in the pager (the key only goes on to the viewport, as any key the
    pager does not handle) and reports nothing: the state and the status
    message stay as they were and no status-message timeout is started.
    Cycling the focus on an empty registry is different: it shows the
    status message "No followable links". *)
Theorem back_on_empty_history_is_silent (m : pagerModel) :
  history m = [] ->
  let back := update m (KeyMsg keyBackspace) in
  let seen := viewportUpdate (viewport m) (KeyMsg keyBackspace) in
  fst back = set_viewport m (fst seen)
  /\ snd back = Batch [snd seen]
  /\ state (fst back) = state m
  /\ statusMessage (fst back) = statusMessage m
  /\ statusMessageTimer (fst back) = statusMessageTimer m
  /\ (links m = [] ->
      let tab := update m (KeyMsg keyTab) in
      state (fst tab) = pagerStateStatusMessage
      /\ statusMessage (fst tab) = bytes "No followable links"
      /\ exists c, snd tab = Batch [waitForStatusMessageTimeout; c]).
Proof.
  intros Hh. cbv zeta. unfold update. rewrite Hh. cbn [len length Z.of_nat Z.ltb Z.compare].
  unfold finish. cbn [app].
  destruct (viewportUpdate (viewport m) (KeyMsg keyBackspace)) as [vp c] eqn:Hv.
  cbn [fst snd]. do 5 (split; [reflexivity|]).
  intros Hl. rewrite Hl. cbn [len length Z.of_nat Z.eqb].
  unfold showStatusMessage, finish. cbn [message].
  destruct (viewportUpdate _ (KeyMsg keyTab)) as [vp' c'].
  cbn [fst snd app]. repeat split. exists c'. reflexivity.
Qed.

End Navigation.

Lemma back_on_empty_history_is_silent_witness :
  history samplePager.pager = []
  /\ fst (update (E := sample.world) (T := samplePager.terminal)
            samplePager.pager (KeyMsg keyBackspace))
     = set_viewport samplePager.pager
         (fst (viewportUpdate (T := samplePager.terminal)
                 (viewport samplePager.pager) (KeyMsg keyBackspace))).
Proof.
  split; [reflexivity|].
  apply (back_on_empty_history_is_silent (E := sample.world)
           (T := samplePager.terminal) samplePager.pager eq_refl).
Defined.

(** C9, as the claim has it, fails: back on an empty history leaves the
    pager in [pagerStateBrowse] with its (empty) status message and
    returns no timeout command, whereas tab on an empty registry moves it
    to [pagerStateStatusMessage]. *)
Lemma back_on_empty_history_shows_nothing :
  history samplePager.pager = []
  /\ update (E := sample.world) (T := samplePager.terminal)
       samplePager.pager (KeyMsg keyBackspace)
     = (samplePager.pager, Batch [nilCmd])
  /\ state samplePager.pager = pagerStateBrowse
  /\ statusMessage samplePager.pager = []
  /\ (let '(m, cmd) :=
        update (E := sample.world) (T := samplePager.terminal)
          (set_links samplePager.pager []) (KeyMsg keyTab) in
      (state m, statusMessage m, cmd))
     = (pagerStateStatusMessage, bytes "No followable links",
        Batch [waitForStatusMessageTimeout; nilCmd]).
Proof. vm_compute. repeat split. Qed.

Lemma GotoTop_AtTop (vp : viewport.Model) :
  viewport.AtTop (viewport.GotoTop vp) = true.
Proof.
  unfold viewport.GotoTop. destruct (viewport.AtTop vp) eqn:H; [exact H|].
  unfold viewport.AtTop, viewport.SetYOffset, viewport.setYOffset,
    viewport.maxYOffset. cbn [viewport.YOffset]. apply Z.leb_le. lia.
Qed.

Lemma GotoBottom_YOffset (vp : viewport.Model) :
  viewport.YOffset (viewport.GotoBottom vp) = viewport.maxYOffset vp.
Proof.
  unfold viewport.GotoBottom, viewport.SetYOffset, viewport.setYOffset.
  cbn [viewport.YOffset]. unfold viewport.maxYOffset. lia.
Qed.

Section FollowAndBack.
Context {E : Extern} {T : Terminal}.

Lemma startWatching_keeps (m : pagerModel) :
  viewport (fst (startWatching m)) = viewport m
  /\ pendingRestoreYOffset (fst (startWatching m)) = pendingRestoreYOffset m
  /\ history (fst (startWatching m)) = history m.
Proof.
  unfold startWatching, stopWatching.
  repeat (break_if; cbn [fst]); repeat split; reflexivity.
Qed.

(** C8, as the code has it.  Following the focused link (its
    [ResolvedPath] not empty) from a document with a known local path
    pushes [{currentPath, currentScrollOffset}] on the history, resets the
    focus to [-1], takes the viewport to its top and requests the load of
    the target.  Whatever happens to the rest of the pager in between, a
    back on that history pops exactly that entry, resets the focus,
    requests a reload of the popped path and keeps its scroll offset
    pending; and when rendered content arrives with that offset pending,
    the offset is restored to the saved value, except that a saved value
    past the bottom of the new content gives the bottom of that content;
    nothing stays pending. *)
Theorem follow_then_back (m m1 m2 : pagerModel) (s : gostring) :
  let l := nth (Z.to_nat (focusedLink m)) (links m) noLink in
  let saved := viewport.YOffset (viewport m) in
  let follow := update m (KeyMsg keyEnter) in
  let back := update m1 (KeyMsg keyBackspace) in
  let ready := update m2 (contentRenderedMsg s) in
  let shown :=
    viewport.setYOffset
      (viewport (applyRenderedContent (set_rendered m2 s))) saved in
  0 <= focusedLink m < len (links m) ->
  ResolvedPath l <> [] ->
  localPath (currentDocument m) <> [] ->
  history m1 = history (fst follow) ->
  pendingRestoreYOffset m2 = pendingRestoreYOffset (fst back) ->
  (history (fst follow)
   = history m ++ [ {| navEntry.Path := localPath (currentDocument m);
                       navEntry.YOffset := saved |} ]
   /\ focusedLink (fst follow) = -1
   /\ viewport (fst follow) = viewport.GotoTop (viewport m)
   /\ viewport.AtTop (viewport (fst follow)) = true
   /\ snd follow
      = loadLocalMarkdown {| localPath := ResolvedPath l;
                             Note := ResolvedNote l; Body := [] |})
  /\ (history (fst back) = history m
      /\ focusedLink (fst back) = -1
      /\ pendingRestoreYOffset (fst back) = Some saved
      /\ snd back
         = loadLocalMarkdown
             {| localPath := localPath (currentDocument m);
                Note := stripAbsolutePath (localPath (currentDocument m))
                                          (cwd (common m1));
                Body := [] |})
  /\ (pendingRestoreYOffset (fst ready) = None
      /\ viewport.YOffset (viewport (fst ready))
         = if viewport.PastBottom shown then viewport.maxYOffset shown
           else saved).
Proof.
  cbv zeta. intros Hf Hres Hdoc Hm1 Hm2.
  (* follow *)
  assert (Hfollow :
            update m (KeyMsg keyEnter)
            = (set_pendingRestoreYOffset
                 (set_viewport
                    (set_focusedLink
                       (set_history m
                          (history m ++
                           [ {| navEntry.Path := localPath (currentDocument m);
                                navEntry.YOffset := viewport.YOffset (viewport m) |} ]))
                       (-1))
                    (viewport.GotoTop (viewport m)))
                 None,
               loadLocalMarkdown
                 {| localPath :=
                      ResolvedPath (nth (Z.to_nat (focusedLink m)) (links m) noLink);
                    Note :=
                      ResolvedNote (nth (Z.to_nat (focusedLink m)) (links m) noLink);
                    Body := [] |})).
  { unfold update.
    replace ((0 <=? focusedLink m) && (focusedLink m <? len (links m)))
      with true
      by (symmetry; apply andb_true_intro; split;
          [apply Z.leb_le|apply Z.ltb_lt]; lia).
    unfold followFocusedLink.
    apply eqs_false in Hres. rewrite Hres.
    apply eqs_false in Hdoc. rewrite Hdoc. reflexivity. }
  rewrite Hfollow in *. cbn [fst snd] in *.
  cbn [history set_pendingRestoreYOffset set_viewport set_focusedLink
       set_history] in Hm1.
  (* back *)
  assert (Hback :
            update m1 (KeyMsg keyBackspace)
            = (set_viewport
                 (set_pendingRestoreYOffset
                    (set_focusedLink (set_history m1 (history m)) (-1))
                    (Some (viewport.YOffset (viewport m))))
                 (viewport.GotoTop (viewport m1)),
               loadLocalMarkdown
                 {| localPath := localPath (currentDocument m);
                    Note := stripAbsolutePath (localPath (currentDocument m))
                                              (cwd (common m1));
                    Body := [] |})).
  { assert (Hlen : len (history m1) = len (history m) + 1)
      by (rewrite Hm1; lens; lia).
    pose proof (len_nonneg (history m)).
    unfold update, goBack.
    replace (0 <? len (history m1)) with true
      by (symmetry; apply Z.ltb_lt; lia).
    replace (len (history m1) =? 0) with false
      by (symmetry; apply Z.eqb_neq; lia).
    rewrite Hm1, last_last, removelast_last. reflexivity. }
  rewrite Hback in *. cbn [fst snd] in *.
  cbn [pendingRestoreYOffset set_viewport set_pendingRestoreYOffset] in Hm2.
  split; [repeat split; apply GotoTop_AtTop|].
  split; [repeat split|].
  (* content ready *)
  unfold update.
  assert (Hp : pendingRestoreYOffset (applyRenderedContent (set_rendered m2 s))
               = Some (viewport.YOffset (viewport m)))
    by (rewrite <- Hm2; reflexivity).
  rewrite Hp.
  set (vp := viewport.setYOffset
               (viewport (applyRenderedContent (set_rendered m2 s)))
               (viewport.YOffset (viewport m))).
  match goal with
  | |- context [startWatching ?x] =>
    pose proof (startWatching_keeps x) as (Hv & Hpend & _);
    destruct (startWatching x) as [mw w]
  end.
  cbn [fst] in Hv, Hpend. unfold finish, viewportUpdate. cbn [fst snd].
  cbn [pendingRestoreYOffset viewport set_viewport]. rewrite Hv, Hpend.
  cbn [set_viewport viewport].
  destruct (viewport.PastBottom vp) eqn:Hpb;
    cbn [pendingRestoreYOffset viewport set_viewport set_pendingRestoreYOffset].
  - split; [reflexivity|]. apply GotoBottom_YOffset.
  - split; reflexivity.
Qed.

End FollowAndBack.

Lemma follow_then_back_witness :
  (0 <= focusedLink samplePager.pager < len (links samplePager.pager)
   /\ ResolvedPath (nth (Z.to_nat (focusedLink samplePager.pager))
                        (links samplePager.pager) noLink) <> []
   /\ localPath (currentDocument samplePager.pager) <> [])
  /\ history
       (fst (update (E := sample.world) (T := samplePager.terminal)
               (fst (update (E := sample.world) (T := samplePager.terminal)
                       samplePager.pager (KeyMsg keyEnter)))
               (KeyMsg keyBackspace)))
     = history samplePager.pager.
Proof.
  split; [split; [vm_compute; split; congruence|split; discriminate]|].
  apply (follow_then_back (E := sample.world) (T := samplePager.terminal)
           samplePager.pager
           (fst (update (E := sample.world) (T := samplePager.terminal)
                   samplePager.pager (KeyMsg keyEnter)))
           (fst (update (E := sample.world) (T := samplePager.terminal)
                   (fst (update (E := sample.world) (T := samplePager.terminal)
                           samplePager.pager (KeyMsg keyEnter)))
                   (KeyMsg keyBackspace)))
           (bytes "# Current"));
    [vm_compute; split; congruence|discriminate|discriminate
     |reflexivity|reflexivity].
Defined.

(** C8, as the claim has it, fails when the document has become shorter:
    the link is followed from line 5 of [current.md], back pops the entry
    and keeps offset 5 pending, but the reloaded [current.md] is one line
    long in a viewport of height 10, and the offset ends at 0. *)
Lemma back_restore_is_clamped :
  let follow :=
    update (E := sample.world) (T := samplePager.terminal)
      samplePager.pager (KeyMsg keyEnter) in
  let m1 :=
    fst (update (E := sample.world) (T := samplePager.terminal)
           (samplePager.loaded (fst follow) (snd follow))
           (contentRenderedMsg (bytes "# Target"))) in
  let back :=
    update (E := sample.world) (T := samplePager.terminal)
      m1 (KeyMsg keyBackspace) in
  let ready :=
    update (E := sample.world) (T := samplePager.terminal)
      (samplePager.loaded (fst back) (snd back))
      (contentRenderedMsg (bytes "# Current")) in
  viewport.YOffset (viewport samplePager.pager) = 5
  /\ history (fst follow)
     = [ {| navEntry.Path := bytes "/root/current.md";
            navEntry.YOffset := 5 |} ]
  /\ history (fst back) = []
  /\ pendingRestoreYOffset (fst back) = Some 5
  /\ snd back
     = loadLocalMarkdown {| localPath := bytes "/root/current.md";
                            Note := bytes "current.md"; Body := [] |}
  /\ pendingRestoreYOffset (fst ready) = None
  /\ viewport.YOffset (viewport (fst ready)) = 0.
Proof. vm_compute. repeat split. Qed.

(** ** UTF-8: encoding and decoding agree *)

Lemma lor_add (a b n : Z) :
  0 <= n -> 0 <= b < 2 ^ n -> Z.lor (a * 2 ^ n) b = a * 2 ^ n + b.
Proof.
  intros Hn Hb. rewrite <- Z.shiftl_mul_pow2 by lia.
  rewrite <- Z.lxor_lor, <- Z.add_nocarry_lxor; try reflexivity.
  all: apply Z.bits_inj'; intros i Hi; rewrite Z.land_spec, Z.bits_0.
  all: destruct (Z.lt_ge_cases i n).
  all: try (rewrite Z.shiftl_spec_low by lia; reflexivity).
  all: destruct (Z.eq_dec b 0) as [->|]; [rewrite Z.bits_0; apply andb_false_r|].
  all: rewrite (Z.bits_above_log2 b i); [apply andb_false_r|lia|].
  all: apply Z.log2_lt_pow2; try lia.
  all: apply Z.lt_le_trans with (2 ^ n); [lia|apply Z.pow_le_mono_r; lia].
Qed.

Lemma land_maskx (x : Z) : Z.land x utf8.maskx = x mod 64.
Proof. change utf8.maskx with (Z.ones 6). apply Z.land_ones. lia. Qed.

Lemma land_mask2 (x : Z) : Z.land x utf8.mask2 = x mod 32.
Proof. change utf8.mask2 with (Z.ones 5). apply Z.land_ones. lia. Qed.

Lemma land_mask3 (x : Z) : Z.land x utf8.mask3 = x mod 16.
Proof. change utf8.mask3 with (Z.ones 4). apply Z.land_ones. lia. Qed.

Lemma land_mask4 (x : Z) : Z.land x utf8.mask4 = x mod 8.
Proof. change utf8.mask4 with (Z.ones 3). apply Z.land_ones. lia. Qed.

Lemma cont_byte (x : Z) :
  Z.lor utf8.tx (Z.land x utf8.maskx) = 128 + x mod 64.
Proof.
  rewrite land_maskx. change utf8.tx with (2 * 2 ^ 6).
  rewrite lor_add; [reflexivity|lia|]. apply Z.mod_pos_bound. lia.
Qed.

Lemma lead2 (r : Z) : 0 <= r < 2048 -> Z.lor utf8.t2 (Z.shiftr r 6) = 192 + r / 64.
Proof.
  intros H. rewrite Z.shiftr_div_pow2 by lia. change utf8.t2 with (3 * 2 ^ 6).
  rewrite lor_add; [reflexivity|lia|]. change (2 ^ 6) with 64.
  Z.div_mod_to_equations. lia.
Qed.

Lemma lead3 (r : Z) : 0 <= r < 65536 -> Z.lor utf8.t3 (Z.shiftr r 12) = 224 + r / 4096.
Proof.
  intros H. rewrite Z.shiftr_div_pow2 by lia. change utf8.t3 with (7 * 2 ^ 5).
  rewrite lor_add; [reflexivity|lia|]. change (2 ^ 12) with 4096.
  change (2 ^ 5) with 32. Z.div_mod_to_equations. lia.
Qed.

Lemma lead4 (r : Z) :
  0 <= r < 2097152 -> Z.lor utf8.t4 (Z.shiftr r 18) = 240 + r / 262144.
Proof.
  intros H. rewrite Z.shiftr_div_pow2 by lia. change utf8.t4 with (15 * 2 ^ 4).
  rewrite lor_add; [reflexivity|lia|]. change (2 ^ 18) with 262144.
  change (2 ^ 4) with 16. Z.div_mod_to_equations. lia.
Qed.

(** The encodings, in arithmetic. *)
Lemma EncodeRune_1 (r : Z) : 0 <= r <= 127 -> utf8.EncodeRune r = [byteof r].
Proof.
  intros H. unfold utf8.EncodeRune, utf8.rune1Max.
  replace ((0 <=? r) && (r <=? 127)) with true; [reflexivity|].
  symmetry. apply andb_true_intro. split; apply Z.leb_le; lia.
Qed.

Lemma EncodeRune_2 (r : Z) :
  128 <= r <= 2047 ->
  utf8.EncodeRune r = [byteof (192 + r / 64); byteof (128 + r mod 64)].
Proof.
  intros H. unfold utf8.EncodeRune, utf8.rune1Max, utf8.rune2Max.
  replace (r <=? 127) with false by (symmetry; apply Z.leb_gt; lia).
  replace ((0 <=? r) && (r <=? 2047)) with true
    by (symmetry; apply andb_true_intro; split; apply Z.leb_le; lia).
  rewrite andb_false_r, lead2, cont_byte by lia. reflexivity.
Qed.

Lemma encode3_arith (r : Z) :
  0 <= r < 65536 ->
  utf8.encode3 r = [byteof (224 + r / 4096); byteof (128 + (r / 64) mod 64);
                    byteof (128 + r mod 64)].
Proof.
  intros H. unfold utf8.encode3. rewrite lead3, !cont_byte by lia.
  rewrite Z.shiftr_div_pow2 by lia. reflexivity.
Qed.

Lemma EncodeRune_3 (r : Z) :
  2048 <= r <= 65535 -> ~ (55296 <= r <= 57343) ->
  utf8.EncodeRune r = [byteof (224 + r / 4096); byteof (128 + (r / 64) mod 64);
                       byteof (128 + r mod 64)].
Proof.
  intros H Hs.
  unfold utf8.EncodeRune, utf8.rune1Max, utf8.rune2Max, utf8.rune3Max,
    utf8.MaxRune, utf8.surrogateMin, utf8.surrogateMax.
  replace (r <=? 127) with false by (symmetry; apply Z.leb_gt; lia).
  replace (r <=? 2047) with false by (symmetry; apply Z.leb_gt; lia).
  replace (r <? 0) with false by (symmetry; apply Z.ltb_ge; lia).
  replace (1114111 <? r) with false by (symmetry; apply Z.ltb_ge; lia).
  replace ((55296 <=? r) && (r <=? 57343)) with false.
  2:{ symmetry. apply andb_false_iff.
      destruct (Z.leb_spec 55296 r); [right; apply Z.leb_gt; lia|left; reflexivity]. }
  replace (r <=? 65535) with true by (symmetry; apply Z.leb_le; lia).
  rewrite !andb_false_r. cbn [orb]. apply encode3_arith. lia.
Qed.

Lemma EncodeRune_4 (r : Z) :
  65536 <= r <= 1114111 ->
  utf8.EncodeRune r
  = [byteof (240 + r / 262144); byteof (128 + (r / 4096) mod 64);
     byteof (128 + (r / 64) mod 64); byteof (128 + r mod 64)].
Proof.
  intros H.
  unfold utf8.EncodeRune, utf8.rune1Max, utf8.rune2Max, utf8.rune3Max,
    utf8.MaxRune, utf8.surrogateMin, utf8.surrogateMax.
  replace (r <=? 127) with false by (symmetry; apply Z.leb_gt; lia).
  replace (r <=? 2047) with false by (symmetry; apply Z.leb_gt; lia).
  replace (r <? 0) with false by (symmetry; apply Z.ltb_ge; lia).
  replace (1114111 <? r) with false by (symmetry; apply Z.ltb_ge; lia).
  replace (r <=? 57343) with false by (symmetry; apply Z.leb_gt; lia).
  replace (r <=? 65535) with false by (symmetry; apply Z.leb_gt; lia).
  rewrite !andb_false_r. cbn [orb].
  rewrite lead4, !cont_byte by lia. rewrite !Z.shiftr_div_pow2 by lia.
  reflexivity.
Qed.

Lemma dec2_arith (a b : Z) :
  Z.lor (Z.shiftl (Z.land a utf8.mask2) 6) (Z.land b utf8.maskx)
  = (a mod 32) * 64 + b mod 64.
Proof.
  rewrite land_mask2, land_maskx, Z.shiftl_mul_pow2 by lia.
  rewrite lor_add; [reflexivity|lia|]. apply Z.mod_pos_bound. lia.
Qed.

Lemma dec3_arith (a b c : Z) :
  Z.lor (Z.lor (Z.shiftl (Z.land a utf8.mask3) 12)
               (Z.shiftl (Z.land b utf8.maskx) 6))
        (Z.land c utf8.maskx)
  = (a mod 16) * 4096 + (b mod 64) * 64 + c mod 64.
Proof.
  rewrite land_mask3, !land_maskx, !Z.shiftl_mul_pow2 by lia.
  pose proof (Z.mod_pos_bound b 64 ltac:(lia)).
  pose proof (Z.mod_pos_bound c 64 ltac:(lia)).
  rewrite (lor_add (a mod 16) _ 12) by (change (2 ^ 6) with 64; change (2 ^ 12) with 4096; lia).
  replace (a mod 16 * 2 ^ 12 + b mod 64 * 2 ^ 6)
    with ((a mod 16 * 64 + b mod 64) * 2 ^ 6) by (change (2 ^ 12) with 4096; change (2 ^ 6) with 64; lia).
  rewrite lor_add by (change (2 ^ 6) with 64; lia).
  change (2 ^ 6) with 64. lia.
Qed.

Lemma dec4_arith (a b c d : Z) :
  Z.lor (Z.lor (Z.lor (Z.shiftl (Z.land a utf8.mask4) 18)
                      (Z.shiftl (Z.land b utf8.maskx) 12))
               (Z.shiftl (Z.land c utf8.maskx) 6))
        (Z.land d utf8.maskx)
  = (a mod 8) * 262144 + (b mod 64) * 4096 + (c mod 64) * 64 + d mod 64.
Proof.
  rewrite land_mask4, !land_maskx, !Z.shiftl_mul_pow2 by lia.
  pose proof (Z.mod_pos_bound b 64 ltac:(lia)).
  pose proof (Z.mod_pos_bound c 64 ltac:(lia)).
  pose proof (Z.mod_pos_bound d 64 ltac:(lia)).
  change (2 ^ 18) with 262144. change (2 ^ 12) with 4096.
  change 262144 with (2 ^ 18) at 1.
  rewrite (lor_add (a mod 8) _ 18) by (change (2 ^ 18) with 262144; lia).
  replace (a mod 8 * 2 ^ 18 + b mod 64 * 4096)
    with ((a mod 8 * 64 + b mod 64) * 2 ^ 12)
    by (change (2 ^ 18) with 262144; change (2 ^ 12) with 4096; lia).
  rewrite lor_add by (change (2 ^ 6) with 64; change (2 ^ 12) with 4096; lia).
  replace ((a mod 8 * 64 + b mod 64) * 2 ^ 12 + c mod 64 * 2 ^ 6)
    with (((a mod 8 * 64 + b mod 64) * 64 + c mod 64) * 2 ^ 6)
    by (change (2 ^ 12) with 4096; change (2 ^ 6) with 64; lia).
  rewrite lor_add by (change (2 ^ 6) with 64; lia).
  change (2 ^ 6) with 64. lia.
Qed.

(** The value and width [DecodeRuneInString] returns, by the class of
    the first byte, with the bytes read as numbers. *)
Lemma Decode_1 (c : ascii) (rest : gostring) :
  byteval c < 128 -> utf8.DecodeRuneInString (c :: rest) = (byteval c, 1).
Proof.
  intros H. unfold utf8.DecodeRuneInString.
  replace (utf8.first c) with utf8.ASCII; [reflexivity|].
  first_cases. reflexivity.
Qed.

Lemma Decode_lead (c0 c1 : ascii) (rest : gostring) (sz lo hi : Z) :
  utf8.first c0 = utf8.Lead sz lo hi ->
  sz <= len (c0 :: c1 :: rest) ->
  lo <= byteval c1 <= hi ->
  utf8.DecodeRuneInString (c0 :: c1 :: rest)
  = if sz <=? 2 then ((byteval c0 mod 32) * 64 + byteval c1 mod 64, 2)
    else match rest with
         | [] => (utf8.RuneError, 1)
         | c2 :: rest2 =>
           if utf8.outside utf8.locb utf8.hicb c2 then (utf8.RuneError, 1)
           else if sz <=? 3 then
             ((byteval c0 mod 16) * 4096 + (byteval c1 mod 64) * 64
              + byteval c2 mod 64, 3)
           else match rest2 with
                | [] => (utf8.RuneError, 1)
                | c3 :: _ =>
                  if utf8.outside utf8.locb utf8.hicb c3
                  then (utf8.RuneError, 1)
                  else ((byteval c0 mod 8) * 262144
                        + (byteval c1 mod 64) * 4096
                        + (byteval c2 mod 64) * 64 + byteval c3 mod 64, 4)
                end
         end.
Proof.
  intros Hf Hlen H1. unfold utf8.DecodeRuneInString. rewrite Hf.
  replace (len (c0 :: c1 :: rest) <? sz) with false
    by (symmetry; apply Z.ltb_ge; lia).
  replace (utf8.outside lo hi c1) with false.
  2:{ symmetry. unfold utf8.outside. apply orb_false_intro;
      apply Z.ltb_ge; lia. }
  rewrite dec2_arith. destruct (sz <=? 2); [reflexivity|].
  destruct rest as [|c2 rest2]; [reflexivity|].
  destruct (utf8.outside utf8.locb utf8.hicb c2); [reflexivity|].
  rewrite dec3_arith. destruct (sz <=? 3); [reflexivity|].
  destruct rest2 as [|c3 rest3]; [reflexivity|].
  destruct (utf8.outside utf8.locb utf8.hicb c3); [reflexivity|].
  rewrite dec4_arith. reflexivity.
Qed.

Lemma Decode_bytes2 (x0 x1 : Z) (rest : gostring) :
  194 <= x0 <= 223 -> 128 <= x1 <= 191 ->
  utf8.DecodeRuneInString (byteof x0 :: byteof x1 :: rest)
  = ((x0 mod 32) * 64 + x1 mod 64, 2).
Proof.
  intros H0 H1.
  rewrite (Decode_lead _ _ _ 2 utf8.locb utf8.hicb).
  - rewrite !byteval_byteof by lia. reflexivity.
  - unfold utf8.first. rewrite byteval_byteof by lia.
    unfold utf8.locb, utf8.hicb. first_cases. reflexivity.
  - lens. pose proof (len_nonneg rest). lia.
  - rewrite byteval_byteof by lia. unfold utf8.locb, utf8.hicb. lia.
Qed.

Lemma Decode_bytes3 (x0 x1 x2 : Z) (rest : gostring) :
  224 <= x0 <= 239 -> 128 <= x1 <= 191 ->
  (x0 = 224 -> 160 <= x1) -> (x0 = 237 -> x1 <= 159) ->
  128 <= x2 <= 191 ->
  utf8.DecodeRuneInString (byteof x0 :: byteof x1 :: byteof x2 :: rest)
  = ((x0 mod 16) * 4096 + (x1 mod 64) * 64 + x2 mod 64, 3).
Proof.
  intros H0 H1 HE0 HED H2.
  assert (Hf : exists lo hi,
             utf8.first (byteof x0) = utf8.Lead 3 lo hi /\ lo <= x1 <= hi).
  { unfold utf8.first. rewrite byteval_byteof by lia.
    unfold utf8.locb, utf8.hicb. first_cases; eexists _, _;
      (split; [reflexivity|lia]). }
  destruct Hf as (lo & hi & Hf & Hr).
  rewrite (Decode_lead _ _ _ 3 lo hi Hf).
  - cbn [Z.leb Z.compare Pos.compare Pos.compare_cont].
    unfold utf8.outside, utf8.locb, utf8.hicb.
    rewrite !byteval_byteof by lia.
    replace ((x2 <? 128) || (191 <? x2)) with false
      by (symmetry; apply orb_false_intro; apply Z.ltb_ge; lia).
    reflexivity.
  - lens. pose proof (len_nonneg rest). lia.
  - rewrite byteval_byteof by lia. exact Hr.
Qed.

Lemma Decode_bytes4 (x0 x1 x2 x3 : Z) (rest : gostring) :
  240 <= x0 <= 244 -> 128 <= x1 <= 191 ->
  (x0 = 240 -> 144 <= x1) -> (x0 = 244 -> x1 <= 143) ->
  128 <= x2 <= 191 -> 128 <= x3 <= 191 ->
  utf8.DecodeRuneInString
    (byteof x0 :: byteof x1 :: byteof x2 :: byteof x3 :: rest)
  = ((x0 mod 8) * 262144 + (x1 mod 64) * 4096 + (x2 mod 64) * 64
     + x3 mod 64, 4).
Proof.
  intros H0 H1 HF0 HF4 H2 H3.
  assert (Hf : exists lo hi,
             utf8.first (byteof x0) = utf8.Lead 4 lo hi /\ lo <= x1 <= hi).
  { unfold utf8.first. rewrite byteval_byteof by lia.
    unfold utf8.locb, utf8.hicb. first_cases; eexists _, _;
      (split; [reflexivity|lia]). }
  destruct Hf as (lo & hi & Hf & Hr).
  rewrite (Decode_lead _ _ _ 4 lo hi Hf).
  - cbn [Z.leb Z.compare Pos.compare Pos.compare_cont].
    unfold utf8.outside, utf8.locb, utf8.hicb.
    rewrite !byteval_byteof by lia.
    replace ((x2 <? 128) || (191 <? x2)) with false
      by (symmetry; apply orb_false_intro; apply Z.ltb_ge; lia).
    replace ((x3 <? 128) || (191 <? x3)) with false
      by (symmetry; apply orb_false_intro; apply Z.ltb_ge; lia).
    reflexivity.
  - lens. pose proof (len_nonneg rest). lia.
  - rewrite byteval_byteof by lia. exact Hr.
Qed.

Lemma ValidRune_cases (r : Z) :
  utf8.ValidRune r = true ->
  0 <= r <= 127 \/ 128 <= r <= 2047
  \/ (2048 <= r <= 65535 /\ ~ (55296 <= r <= 57343))
  \/ 65536 <= r <= 1114111.
Proof.
  unfold utf8.ValidRune, utf8.surrogateMin, utf8.surrogateMax, utf8.MaxRune.
  intros H. apply orb_prop in H. destruct H as [H|H]; bool_hyps; lia.
Qed.

(** Decoding an encoded rune gives the rune back, with the width of its
    encoding. *)
Lemma Decode_Encode (r : Z) (rest : gostring) :
  utf8.ValidRune r = true ->
  utf8.DecodeRuneInString (utf8.EncodeRune r ++ rest)
  = (r, len (utf8.EncodeRune r)).
Proof.
  intros Hv. destruct (ValidRune_cases r Hv) as [H|[H|[[H Hs]|H]]].
  - rewrite EncodeRune_1 by assumption. cbn [app].
    rewrite Decode_1 by (rewrite byteval_byteof; lia).
    rewrite byteval_byteof by lia. reflexivity.
  - rewrite EncodeRune_2 by assumption. cbn [app].
    rewrite Decode_bytes2 by (Z.div_mod_to_equations; lia).
    f_equal. Z.div_mod_to_equations. lia.
  - rewrite EncodeRune_3 by assumption. cbn [app].
    rewrite Decode_bytes3 by (Z.div_mod_to_equations; lia).
    f_equal. Z.div_mod_to_equations. lia.
  - rewrite EncodeRune_4 by assumption. cbn [app].
    rewrite Decode_bytes4 by (Z.div_mod_to_equations; lia).
    f_equal. Z.div_mod_to_equations. lia.
Qed.

Lemma ValidRune_intro (r : Z) :
  0 <= r < 55296 \/ 57343 < r <= 1114111 -> utf8.ValidRune r = true.
Proof.
  intros H. unfold utf8.ValidRune, utf8.surrogateMin, utf8.surrogateMax,
              utf8.MaxRune.
  apply orb_true_iff. destruct H as [H|H]; [left|right];
    apply andb_true_intro; split;
    first [apply Z.leb_le|apply Z.ltb_lt]; lia.
Qed.

Lemma outside_false (lo hi : Z) (c : ascii) :
  utf8.outside lo hi c = false -> lo <= byteval c <= hi.
Proof. unfold utf8.outside. intros H. bool_hyps. lia. Qed.

(** The decoder only returns code points that are valid runes. *)
Lemma Decode_valid (s : gostring) :
  utf8.ValidRune (fst (utf8.DecodeRuneInString s)) = true.
Proof.
  destruct s as [|c0 tl]; [reflexivity|].
  pose proof (byteval_range c0) as R0.
  destruct (utf8.first c0) as [| |sz lo hi] eqn:Hf.
  - unfold utf8.DecodeRuneInString. rewrite Hf. cbn [fst].
    apply ValidRune_intro. revert Hf. first_cases; intros; discriminate.
  - unfold utf8.DecodeRuneInString. rewrite Hf. reflexivity.
  - destruct (len (c0 :: tl) <? sz) eqn:Hlen.
    { unfold utf8.DecodeRuneInString. rewrite Hf, Hlen. reflexivity. }
    apply Z.ltb_ge in Hlen.
    destruct tl as [|c1 tl1].
    { unfold utf8.DecodeRuneInString. rewrite Hf.
      destruct (len [c0] <? sz); reflexivity. }
    destruct (utf8.outside lo hi c1) eqn:Ho.
    { unfold utf8.DecodeRuneInString. rewrite Hf, Ho.
      destruct (len (c0 :: c1 :: tl1) <? sz); reflexivity. }
    apply outside_false in Ho.
    rewrite (Decode_lead _ _ _ _ _ _ Hf Hlen Ho).
    pose proof (byteval_range c1) as R1.
    assert (Hcls :
              (sz = 2 /\ 194 <= byteval c0 <= 223)
              \/ (sz = 3 /\ 224 <= byteval c0 <= 239
                  /\ (byteval c0 = 224 -> 160 <= lo)
                  /\ (byteval c0 = 237 -> hi <= 159))
              \/ (sz = 4 /\ 240 <= byteval c0 <= 244
                  /\ (byteval c0 = 240 -> 144 <= lo)
                  /\ (byteval c0 = 244 -> hi <= 143))).
    { revert Hf. first_cases; intros Hf; inversion Hf; subst;
        unfold utf8.locb, utf8.hicb in *; lia. }
    assert (Hlohi : 128 <= lo /\ hi <= 191).
    { revert Hf. first_cases; intros Hf; inversion Hf; subst;
        unfold utf8.locb, utf8.hicb in *; lia. }
    destruct Hcls as [[-> H0]|[(-> & H0 & HE0 & HED)|(-> & H0 & HF0 & HF4)]];
      cbn [Z.leb Z.compare Pos.compare Pos.compare_cont fst].
    + apply ValidRune_intro. Z.div_mod_to_equations. lia.
    + destruct tl1 as [|c2 tl2]; [reflexivity|].
      destruct (utf8.outside utf8.locb utf8.hicb c2) eqn:Ho2; [reflexivity|].
      apply outside_false in Ho2. unfold utf8.locb, utf8.hicb in Ho2.
      cbn [fst]. apply ValidRune_intro. Z.div_mod_to_equations. lia.
    + destruct tl1 as [|c2 tl2]; [reflexivity|].
      destruct (utf8.outside utf8.locb utf8.hicb c2) eqn:Ho2; [reflexivity|].
      apply outside_false in Ho2. unfold utf8.locb, utf8.hicb in Ho2.
      destruct tl2 as [|c3 tl3]; [reflexivity|].
      destruct (utf8.outside utf8.locb utf8.hicb c3) eqn:Ho3; [reflexivity|].
      apply outside_false in Ho3. unfold utf8.locb, utf8.hicb in Ho3.
      cbn [fst]. apply ValidRune_intro. Z.div_mod_to_equations. lia.
Qed.

Lemma printableRune_valid (rest : gostring) :
  utf8.ValidRune (fst (printableRune rest)) = true.
Proof.
  unfold printableRune. pose proof (Decode_valid rest) as H.
  destruct (utf8.DecodeRuneInString rest) as [r size]. cbn [fst] in H.
  destruct ((r =? utf8.RuneError) && (size =? 1)); cbn [fst]; [|exact H].
  apply ValidRune_intro. pose proof (byteval_range (hd zero rest)). lia.
Qed.

Lemma printable_runes_valid (s : gostring) :
  Forall (fun r => utf8.ValidRune r = true)
         (fst (printableRunesAndOffsets s)).
Proof.
  destruct (printableRunesAndOffsets_spec s) as (runes & offs & Heq & HF2 & _).
  rewrite Heq. cbn [fst]. clear Heq.
  induction HF2 as [|r o runes offs H HF2 IH]; constructor; [|exact IH].
  destruct H as (_ & _ & <-). apply printableRune_valid.
Qed.

Lemma EncodeRune_shape (r : Z) :
  utf8.ValidRune r = true ->
  exists b0 cs,
    utf8.EncodeRune r = b0 :: cs
    /\ utf8.isCont b0 = false
    /\ Forall (fun c => utf8.isCont c = true) cs.
Proof.
  intros Hv.
  assert (Hlead : forall x, 0 <= x < 128 \/ 192 <= x < 256 ->
                            utf8.isCont (byteof x) = false).
  { intros x Hx. unfold utf8.isCont, utf8.locb, utf8.hicb.
    rewrite byteval_byteof by lia. apply andb_false_iff.
    destruct Hx; [left; apply Z.leb_gt; lia|right; apply Z.leb_gt; lia]. }
  assert (Hcont : forall x, 0 <= x < 64 -> utf8.isCont (byteof (128 + x)) = true).
  { intros x Hx. unfold utf8.isCont, utf8.locb, utf8.hicb.
    rewrite byteval_byteof by lia.
    apply andb_true_intro. split; apply Z.leb_le; lia. }
  destruct (ValidRune_cases r Hv) as [H|[H|[[H Hs]|H]]].
  - rewrite EncodeRune_1 by assumption. eexists _, _.
    split; [reflexivity|]. split; [apply Hlead; lia|constructor].
  - rewrite EncodeRune_2 by assumption. eexists _, _.
    split; [reflexivity|].
    split; [apply Hlead; Z.div_mod_to_equations; lia|].
    repeat constructor; apply Hcont; Z.div_mod_to_equations; lia.
  - rewrite EncodeRune_3 by assumption. eexists _, _.
    split; [reflexivity|].
    split; [apply Hlead; Z.div_mod_to_equations; lia|].
    repeat constructor; apply Hcont; Z.div_mod_to_equations; lia.
  - rewrite EncodeRune_4 by assumption. eexists _, _.
    split; [reflexivity|].
    split; [apply Hlead; Z.div_mod_to_equations; lia|].
    repeat constructor; apply Hcont; Z.div_mod_to_equations; lia.
Qed.

Lemma stringOfRunes_app (l l' : list Z) :
  utf8.stringOfRunes (l ++ l') = utf8.stringOfRunes l ++ utf8.stringOfRunes l'.
Proof. apply flat_map_app. Qed.

Lemma stringOfRunes_cons (r : Z) (l : list Z) :
  utf8.stringOfRunes (r :: l) = utf8.EncodeRune r ++ utf8.stringOfRunes l.
Proof. reflexivity. Qed.

(** ** Prefixes and the first instance of a substring *)

Lemma HasPrefix_app (s prefix : gostring) :
  strings.HasPrefix s prefix = true <-> exists z, s = prefix ++ z.
Proof.
  revert s. induction prefix as [|p prefix IH]; intros s.
  - split; [intros _; exists s; reflexivity|].
    intros _. destruct s; reflexivity.
  - destruct s as [|c s]; cbn [strings.HasPrefix].
    + split; [discriminate|]. intros [z Hz]. discriminate.
    + split.
      * intros H. apply andb_prop in H. destruct H as [Hc Hs].
        apply Ascii.eqb_eq in Hc. apply IH in Hs. destruct Hs as [z ->].
        exists z. subst. reflexivity.
      * intros [z Hz]. inversion Hz; subst.
        rewrite Ascii.eqb_refl. apply IH. exists z. reflexivity.
Qed.

Lemma indexFrom_shift (substr : gostring) (s : gostring) :
  forall i,
    strings.indexFrom i s substr
    = if strings.indexFrom 0 s substr <? 0 then -1
      else i + strings.indexFrom 0 s substr.
Proof.
  induction s as [|c s IH]; intros i; cbn [strings.indexFrom].
  - destruct (strings.HasPrefix [] substr); cbn; [lia|reflexivity].
  - destruct (strings.HasPrefix (c :: s) substr).
    + cbn. lia.
    + rewrite (IH (i + 1)), (IH (0 + 1)).
      destruct (strings.indexFrom 0 s substr <? 0) eqn:Hn; [reflexivity|].
      bool_hyps.
      replace (0 + 1 + strings.indexFrom 0 s substr <? 0) with false
        by (symmetry; apply Z.ltb_ge; lia).
      lia.
Qed.

Lemma indexFrom_skip_cont (l0 : ascii) (l cs s : gostring) :
  utf8.isCont l0 = false ->
  Forall (fun c => utf8.isCont c = true) cs ->
  forall i,
    strings.indexFrom i (cs ++ s) (l0 :: l)
    = strings.indexFrom (i + len cs) s (l0 :: l).
Proof.
  intros Hl. induction 1 as [|c cs Hc HF IH]; intros i.
  - rewrite len_nil, Z.add_0_r. reflexivity.
  - cbn [app]. cbn [strings.indexFrom strings.HasPrefix].
    replace (Ascii.eqb c l0) with false.
    2:{ symmetry. apply Ascii.eqb_neq. intros ->. congruence. }
    cbn [andb]. rewrite IH, len_cons. f_equal. lia.
Qed.

Lemma EncodeRune_len_pos (r : Z) :
  utf8.ValidRune r = true -> 1 <= len (utf8.EncodeRune r).
Proof.
  intros Hv. destruct (EncodeRune_shape r Hv) as (b0 & cs & -> & _).
  lens. pose proof (len_nonneg cs). lia.
Qed.

Lemma sliceFrom_app_len {A : Type} (p q : list A) :
  sliceFrom (p ++ q) (len p) = q.
Proof.
  unfold sliceFrom, len. rewrite Nat2Z.id, skipn_app, skipn_all, Nat.sub_diag.
  reflexivity.
Qed.

Lemma sliceTo_app_len {A : Type} (p q : list A) :
  sliceTo (p ++ q) (len p) = p.
Proof.
  unfold sliceTo, len. rewrite Nat2Z.id, firstn_app, firstn_all, Nat.sub_diag.
  cbn [firstn]. apply app_nil_r.
Qed.

(** Two encoded strings of valid runes, one a prefix of the other: so are
    the rune strings. *)
Lemma stringOfRunes_prefix (rs : list Z) :
  Forall (fun r => utf8.ValidRune r = true) rs ->
  forall ps,
    Forall (fun r => utf8.ValidRune r = true) ps ->
    strings.HasPrefix (utf8.stringOfRunes ps) (utf8.stringOfRunes rs) = true ->
    firstn (length rs) ps = rs.
Proof.
  induction 1 as [|r rs Hr HF IH]; intros ps Hps H; [reflexivity|].
  apply HasPrefix_app in H. destruct H as [z Hz].
  rewrite stringOfRunes_cons, <- app_assoc in Hz.
  destruct ps as [|p ps].
  { destruct (EncodeRune_shape r Hr) as (b0 & cs & He & _).
    rewrite He in Hz. discriminate. }
  inversion Hps as [|? ? Hp Hps']; subst.
  rewrite stringOfRunes_cons in Hz.
  pose proof (Decode_Encode p (utf8.stringOfRunes ps) Hp) as Hd1.
  pose proof (Decode_Encode r (utf8.stringOfRunes rs ++ z) Hr) as Hd2.
  rewrite Hz, Hd2 in Hd1. inversion Hd1; subst p.
  apply app_inv_head in Hz. cbn [length firstn]. f_equal.
  apply IH; [assumption|]. apply HasPrefix_app. exists z. exact Hz.
Qed.

Lemma rangeLoop_fuel (fuel1 : nat) :
  forall fuel2 s,
    (length s <= fuel1)%nat -> (length s <= fuel2)%nat ->
    utf8.rangeLoop fuel1 s = utf8.rangeLoop fuel2 s.
Proof.
  induction fuel1 as [|fuel1 IH]; intros fuel2 s H1 H2.
  - destruct s; [|cbn in H1; lia]. destruct fuel2; reflexivity.
  - destruct fuel2 as [|fuel2].
    { destruct s; [reflexivity|cbn in H2; lia]. }
    cbn [utf8.rangeLoop]. destruct s as [|c s]; [reflexivity|].
    pose proof (DecodeRuneInString_size (c :: s) ltac:(discriminate)) as [Hs Hl].
    destruct (utf8.DecodeRuneInString (c :: s)) as [r size]. cbn [snd] in *.
    f_equal.
    assert (Hlen : len (sliceFrom (c :: s) size) = len (c :: s) - size)
      by (apply len_sliceFrom; lia).
    apply IH; unfold len in *; cbn [length] in *; lia.
Qed.

Lemma range_cons (s : gostring) :
  s <> [] ->
  utf8.range s
  = utf8.DecodeRuneInString s
    :: utf8.range (sliceFrom s (snd (utf8.DecodeRuneInString s))).
Proof.
  intros Hne. unfold utf8.range. destruct s as [|c s]; [congruence|].
  cbn [length utf8.rangeLoop].
  pose proof (DecodeRuneInString_size (c :: s) ltac:(discriminate)) as [Hs Hl].
  destruct (utf8.DecodeRuneInString (c :: s)) as [r size]. cbn [snd] in *.
  f_equal.
  assert (Hlen : len (sliceFrom (c :: s) size) = len (c :: s) - size)
    by (apply len_sliceFrom; lia).
  apply rangeLoop_fuel; unfold len in *; cbn [length] in *; lia.
Qed.

Lemma RuneCount_stringOfRunes (rs : list Z) :
  Forall (fun r => utf8.ValidRune r = true) rs ->
  utf8.RuneCountInString (utf8.stringOfRunes rs) = len rs.
Proof.
  unfold utf8.RuneCountInString.
  induction 1 as [|r rs Hr HF IH]; [reflexivity|].
  rewrite stringOfRunes_cons, range_cons.
  2:{ destruct (EncodeRune_shape r Hr) as (b0 & cs & -> & _). discriminate. }
  rewrite Decode_Encode by assumption. cbn [snd].
  rewrite sliceFrom_app_len. lens. lia.
Qed.

Lemma indexFrom_prefix (s substr : gostring) (i : Z) :
  strings.HasPrefix s substr = true -> strings.indexFrom i s substr = i.
Proof. intros H. destruct s; cbn [strings.indexFrom]; rewrite H; reflexivity. Qed.

Lemma firstn_plus {A : Type} (a b : nat) :
  forall l : list A, firstn (a + b) l = firstn a l ++ firstn b (skipn a l).
Proof.
  induction a as [|a IH]; intros l; [reflexivity|].
  destruct l as [|x l]; cbn [Nat.add firstn skipn app].
  - rewrite firstn_nil. reflexivity.
  - f_equal. apply IH.
Qed.

Lemma Forall_skipn_keep {A : Type} (P : A -> Prop) (n : nat) :
  forall l, Forall P l -> Forall P (skipn n l).
Proof.
  induction n as [|n IH]; intros l H; [exact H|].
  destruct l as [|x l]; [constructor|]. inversion H; subst. apply IH. assumption.
Qed.

Lemma stringOfRunes_split (ps : list Z) (k : nat) :
  utf8.stringOfRunes ps
  = utf8.stringOfRunes (firstn k ps) ++ utf8.stringOfRunes (skipn k ps).
Proof. rewrite <- stringOfRunes_app, firstn_skipn. reflexivity. Qed.

(** The byte search of [strings.Index] on encoded strings finds the first
    place where the runes match: if [rs] occurs in [ps] at rune index [k]
    and nowhere before, the first instance of its encoding starts where the
    encoding of the first [k] runes ends. *)
Lemma Index_stringOfRunes (rs : list Z) :
  Forall (fun r => utf8.ValidRune r = true) rs ->
  rs <> [] ->
  forall (k : nat) ps,
    Forall (fun r => utf8.ValidRune r = true) ps ->
    firstn (length rs) (skipn k ps) = rs ->
    (forall j, (j < k)%nat -> firstn (length rs) (skipn j ps) <> rs) ->
    strings.Index (utf8.stringOfRunes ps) (utf8.stringOfRunes rs)
    = len (utf8.stringOfRunes (firstn k ps)).
Proof.
  intros Hrs Hne.
  assert (HL : exists l0 l, utf8.stringOfRunes rs = l0 :: l
                            /\ utf8.isCont l0 = false).
  { destruct rs as [|r rs0]; [congruence|]. inversion Hrs; subst.
    destruct (EncodeRune_shape r) as (b0 & cs & He & Hb & _); [assumption|].
    rewrite stringOfRunes_cons, He. eexists _, _. split; [reflexivity|exact Hb]. }
  destruct HL as (l0 & l & HL & Hl0).
  unfold strings.Index.
  induction k as [|k IH]; intros ps Hps Hocc Hfirst.
  - cbn [skipn] in Hocc. cbn [firstn]. rewrite indexFrom_prefix; [reflexivity|].
    apply HasPrefix_app. exists (utf8.stringOfRunes (skipn (length rs) ps)).
    rewrite (stringOfRunes_split ps (length rs)), Hocc. reflexivity.
  - destruct ps as [|p ps].
    { rewrite skipn_nil, firstn_nil in Hocc. congruence. }
    inversion Hps as [|? ? Hp Hps']; subst.
    assert (Hnp : strings.HasPrefix (utf8.stringOfRunes (p :: ps))
                                    (utf8.stringOfRunes rs) = false).
    { destruct (strings.HasPrefix _ _) eqn:Hpre; [|reflexivity].
      apply stringOfRunes_prefix in Hpre; [|assumption|assumption].
      exfalso. apply (Hfirst 0%nat); [lia|exact Hpre]. }
    destruct (EncodeRune_shape p Hp) as (b0 & cs & He & _ & Hcs).
    rewrite stringOfRunes_cons, He in *. cbn [app] in *.
    cbn [strings.indexFrom]. rewrite Hnp. rewrite HL.
    rewrite indexFrom_skip_cont by assumption.
    rewrite indexFrom_shift. rewrite <- HL.
    cbn [skipn] in Hocc.
    rewrite (IH ps Hps' Hocc).
    2:{ intros j Hj. apply (Hfirst (S j)). lia. }
    pose proof (len_nonneg (utf8.stringOfRunes (firstn k ps))) as Hnn.
    replace (len (utf8.stringOfRunes (firstn k ps)) <? 0) with false
      by (symmetry; apply Z.ltb_ge; lia).
    cbn [firstn]. rewrite stringOfRunes_cons, He. lens. lia.
Qed.

(** ** The search of the highlighter *)

(** One iteration of the loop over the links when the label is found. *)
Lemma spanLoop_found (rendered printableStr : gostring) (offsets : list Z)
      (l : followableLink) (links : list followableLink) (searchFrom : Z) :
  let label := strings.TrimSpace (Label l) in
  let relIdx := strings.Index (sliceFrom printableStr searchFrom) label in
  let byteIdx := searchFrom + relIdx in
  let startRune := utf8.RuneCountInString (sliceTo printableStr byteIdx) in
  let endRune := startRune + utf8.RuneCountInString label in
  label <> [] ->
  searchFrom < len printableStr ->
  0 <= relIdx ->
  exists sp,
    spanLoop rendered printableStr offsets (l :: links) searchFrom
    = sp :: spanLoop rendered printableStr offsets links (byteIdx + len label)
    /\ (endRune <= len offsets - 1 ->
        0 <= elemAt offsets startRune <= elemAt offsets endRune ->
        elemAt offsets endRune <= len rendered ->
        sp = {| start := elemAt offsets startRune;
                end_ := elemAt offsets endRune; ok := true |}).
Proof.
  cbv zeta. intros Hl Hsf Hrel. cbn [spanLoop].
  apply eqs_false in Hl. rewrite Hl.
  replace (len printableStr <=? searchFrom) with false
    by (symmetry; apply Z.leb_gt; lia).
  cbn [orb].
  replace (strings.Index (sliceFrom printableStr searchFrom)
                         (strings.TrimSpace (Label l)) <? 0) with false
    by (symmetry; apply Z.ltb_ge; lia).
  remember (searchFrom
            + strings.Index (sliceFrom printableStr searchFrom)
                            (strings.TrimSpace (Label l))) as byteIdx.
  pose proof (RuneCountInString_nonneg (sliceTo printableStr byteIdx)) as Hs0.
  remember (utf8.RuneCountInString (sliceTo printableStr byteIdx))
    as startRune.
  remember (startRune
            + utf8.RuneCountInString (strings.TrimSpace (Label l)))
    as endRune.
  destruct ((startRune <? 0) || (len offsets - 1 <? endRune)) eqn:G1.
  { exists noSpan. split; [reflexivity|]. intros H1 H2 H3. exfalso.
    apply orb_prop in G1. destruct G1; bool_hyps; lia. }
  destruct ((elemAt offsets startRune <? 0)
            || (elemAt offsets endRune <? elemAt offsets startRune)
            || (len rendered <? elemAt offsets endRune)) eqn:G2.
  { exists noSpan. split; [reflexivity|]. intros H1 H2 H3. exfalso.
    apply orb_prop in G2. destruct G2 as [G2|G2];
      [apply orb_prop in G2; destruct G2|]; bool_hyps; lia. }
  eexists. split; reflexivity.
Qed.

Lemma slice_firstn_skipn {A : Type} (l : list A) (k n : Z) :
  0 <= k -> 0 <= n ->
  slice l k (k + n) = firstn (Z.to_nat n) (skipn (Z.to_nat k) l).
Proof.
  intros. unfold slice, sliceTo, sliceFrom. f_equal. lia.
Qed.

Lemma occursAt_nat (runes rs : list Z) (k : Z) :
  occursAt runes rs k <->
  0 <= k /\ firstn (length rs) (skipn (Z.to_nat k) runes) = rs.
Proof.
  unfold occursAt. split; intros [Hk H]; (split; [exact Hk|]).
  - rewrite slice_firstn_skipn in H by (try apply len_nonneg; lia).
    unfold len in H. rewrite Nat2Z.id in H. exact H.
  - rewrite slice_firstn_skipn by (try apply len_nonneg; lia).
    unfold len. rewrite Nat2Z.id. exact H.
Qed.

Lemma occursAt_bound (runes rs : list Z) (k : Z) :
  rs <> [] -> occursAt runes rs k -> k + len rs <= len runes.
Proof.
  intros Hne H. apply occursAt_nat in H. destruct H as [Hk H].
  apply (f_equal (@length Z)) in H.
  rewrite length_firstn, length_skipn in H. unfold len.
  destruct rs; [congruence|]. cbn [length] in *. lia.
Qed.

Lemma table_bounds (rendered : gostring) (a b : Z) :
  let runes := fst (printableRunesAndOffsets rendered) in
  let offsets := snd (printableRunesAndOffsets rendered) in
  0 <= a <= b -> b <= len runes ->
  len offsets = len runes + 1
  /\ 0 <= elemAt offsets a <= elemAt offsets b
  /\ elemAt offsets b <= len rendered
  /\ (a < b -> elemAt offsets a < elemAt offsets b).
Proof.
  cbv zeta. intros Hab Hb.
  destruct (printableRunesAndOffsets_spec rendered)
    as (runes & offs & Heq & HF2 & HS & HF).
  rewrite Heq in *. cbn [fst snd] in *.
  pose proof (Forall2_len _ _ _ HF2) as Hlen.
  assert (Hall : Forall (fun o => 0 <= o <= len rendered) (offs ++ [len rendered])).
  { apply Forall_app. split.
    - eapply Forall_impl; [|exact HF]. cbn beta. intros; lia.
    - constructor; [|constructor]. pose proof (len_nonneg rendered). lia. }
  rewrite Forall_forall in Hall.
  assert (Hla : len (offs ++ [len rendered]) = len runes + 1) by (lens; lia).
  pose proof (Hall _ (elemAt_In (offs ++ [len rendered]) a ltac:(lia))).
  pose proof (Hall _ (elemAt_In (offs ++ [len rendered]) b ltac:(lia))).
  pose proof (elemAt_mono (offs ++ [len rendered]) a b HS ltac:(lia) ltac:(lia)).
  repeat split; try lia.
  intros Hlt. unfold elemAt. apply sorted_nth; [exact HS|].
  unfold len in *. lia.
Qed.

(** The bytes of the first [k] printable runes, and of the rest. *)
Lemma stringOfRunes_sliceFrom (ps : list Z) (k : nat) :
  sliceFrom (utf8.stringOfRunes ps) (len (utf8.stringOfRunes (firstn k ps)))
  = utf8.stringOfRunes (skipn k ps).
Proof. rewrite (stringOfRunes_split ps k) at 1. apply sliceFrom_app_len. Qed.

Lemma stringOfRunes_sliceTo (ps : list Z) (k : nat) :
  sliceTo (utf8.stringOfRunes ps) (len (utf8.stringOfRunes (firstn k ps)))
  = utf8.stringOfRunes (firstn k ps).
Proof. rewrite (stringOfRunes_split ps k) at 1. apply sliceTo_app_len. Qed.

Lemma Forall_firstn_keep {A : Type} (P : A -> Prop) (n : nat) :
  forall l, Forall P l -> Forall P (firstn n l).
Proof.
  induction n as [|n IH]; intros l H; [constructor|].
  destruct l as [|x l]; [constructor|]. inversion H; subst.
  cbn [firstn]. constructor; [assumption|apply IH; assumption].
Qed.

Lemma stringOfRunes_nonempty (rs : list Z) :
  Forall (fun r => utf8.ValidRune r = true) rs -> rs <> [] ->
  utf8.stringOfRunes rs <> [] /\ 1 <= len (utf8.stringOfRunes rs).
Proof.
  intros Hv Hne. destruct rs as [|r rs]; [congruence|]. inversion Hv; subst.
  rewrite stringOfRunes_cons.
  destruct (EncodeRune_shape r) as (b0 & cs & -> & _); [assumption|].
  split; [discriminate|]. cbn [app]. lens.
  pose proof (len_nonneg cs). pose proof (len_nonneg (utf8.stringOfRunes rs)).
  lia.
Qed.

(** The two searches of the loop when the label occurs at rune [K1], not
    before, and next at rune [K2], at or after the end of the first
    occurrence: the second search, started at the byte after the first
    match, stops at the bytes of rune [K2]. *)
Lemma search_after (rs ps : list Z) (K1 K2 : nat) :
  let n := length rs in
  let P := utf8.stringOfRunes ps in
  let L := utf8.stringOfRunes rs in
  let at_ := fun k => len (utf8.stringOfRunes (firstn k ps)) in
  Forall (fun r => utf8.ValidRune r = true) rs -> rs <> [] ->
  Forall (fun r => utf8.ValidRune r = true) ps ->
  firstn n (skipn K1 ps) = rs ->
  (forall j, (j < K1)%nat -> firstn n (skipn j ps) <> rs) ->
  (K1 + n <= K2)%nat ->
  firstn n (skipn K2 ps) = rs ->
  (forall j, (K1 + n <= j < K2)%nat -> firstn n (skipn j ps) <> rs) ->
  strings.Index (sliceFrom P 0) L = at_ K1
  /\ 0 + at_ K1 + len L = at_ (K1 + n)%nat
  /\ at_ (K1 + n)%nat < len P
  /\ strings.Index (sliceFrom P (at_ (K1 + n)%nat)) L
     = at_ K2 - at_ (K1 + n)%nat
  /\ at_ (K1 + n)%nat <= at_ K2
  /\ utf8.RuneCountInString (sliceTo P (at_ K2)) = Z.of_nat K2
  /\ utf8.RuneCountInString L = Z.of_nat n.
Proof.
  cbv zeta. intros Hrs Hne Hps Hocc1 Hfirst1 Hle Hocc2 Hfirst2.
  pose proof (stringOfRunes_nonempty rs Hrs Hne) as [HLne HLlen].
  assert (Hk2 : (K2 + length rs <= length ps)%nat).
  { apply (f_equal (@length Z)) in Hocc2.
    rewrite length_firstn, length_skipn in Hocc2.
    destruct rs; [congruence|]. cbn [length] in *. lia. }
  assert (Hsplit1 : firstn (K1 + length rs) ps = firstn K1 ps ++ rs)
    by (rewrite firstn_plus, Hocc1; reflexivity).
  assert (Hsplit2 : firstn K2 ps
                    = firstn (K1 + length rs) ps
                      ++ firstn (K2 - (K1 + length rs))
                                (skipn (K1 + length rs) ps)).
  { rewrite <- firstn_plus. f_equal. lia. }
  assert (Hsplit3 : firstn (K2 + length rs) ps = firstn K2 ps ++ rs)
    by (rewrite firstn_plus, Hocc2; reflexivity).
  split; [|split; [|split; [|split; [|split; [|split]]]]].
  - rewrite sliceFrom_0. apply Index_stringOfRunes; assumption.
  - rewrite Hsplit1, stringOfRunes_app. lens. lia.
  - rewrite (stringOfRunes_split ps (K2 + length rs)), Hsplit3, Hsplit2.
    rewrite !stringOfRunes_app. lens.
    pose proof (len_nonneg (utf8.stringOfRunes
                              (firstn (K2 - (K1 + length rs))
                                      (skipn (K1 + length rs) ps)))).
    pose proof (len_nonneg (utf8.stringOfRunes (skipn (K2 + length rs) ps))).
    lia.
  - rewrite stringOfRunes_sliceFrom.
    rewrite (Index_stringOfRunes rs Hrs Hne (K2 - (K1 + length rs))).
    + rewrite Hsplit2 at 1. rewrite stringOfRunes_app. lens. lia.
    + apply Forall_skipn_keep. exact Hps.
    + rewrite skipn_skipn.
      replace (K2 - (K1 + length rs) + (K1 + length rs))%nat with K2 by lia.
      exact Hocc2.
    + intros j Hj. rewrite skipn_skipn. apply Hfirst2. lia.
  - rewrite Hsplit2 at 1. rewrite stringOfRunes_app. lens.
    pose proof (len_nonneg (utf8.stringOfRunes
                              (firstn (K2 - (K1 + length rs))
                                      (skipn (K1 + length rs) ps)))).
    lia.
  - rewrite stringOfRunes_sliceTo.
    rewrite RuneCount_stringOfRunes by (apply Forall_firstn_keep; exact Hps).
    unfold len. rewrite length_firstn. lia.
  - apply RuneCount_stringOfRunes. exact Hrs.
Qed.

(** C3, as the code has it: when the first two links of the registry
    have the same trimmed label, a non-empty string of valid UTF-8, and
    the printable stream holds that label at rune [k1] (its first
    occurrence) and again at rune [k2], its first occurrence that starts
    at or after the end of the one at [k1], then [highlightFocusedLink]
    with [focusedIndex = 1] wraps the bytes of the occurrence at [k2],
    which start after those of the first occurrence: the search for the
    second link starts at the byte that follows the first link's match. *)
Theorem highlight_second_occurrence (rendered : gostring)
        (l0 l1 : followableLink) (rest : list followableLink)
        (rs : list Z) (k1 k2 : Z) :
  let runes := fst (printableRunesAndOffsets rendered) in
  let offsets := snd (printableRunesAndOffsets rendered) in
  strings.TrimSpace (Label l0) = utf8.stringOfRunes rs ->
  strings.TrimSpace (Label l1) = utf8.stringOfRunes rs ->
  rs <> [] ->
  Forall (fun r => utf8.ValidRune r = true) rs ->
  occursAt runes rs k1 ->
  (forall j, 0 <= j < k1 -> ~ occursAt runes rs j) ->
  k1 + len rs <= k2 ->
  occursAt runes rs k2 ->
  (forall j, k1 + len rs <= j < k2 -> ~ occursAt runes rs j) ->
  highlightFocusedLink rendered (l0 :: l1 :: rest) 1
  = wrap rendered (elemAt offsets k2) (elemAt offsets (k2 + len rs))
  /\ elemAt offsets k1 < elemAt offsets k2.
Proof.
  cbv zeta. intros Hl0 Hl1 Hne Hrs Ho1 Hf1 Hle Ho2 Hf2.
  pose proof (printable_runes_valid rendered) as Hps.
  pose proof (occursAt_bound _ _ _ Hne Ho1) as Hb1.
  pose proof (occursAt_bound _ _ _ Hne Ho2) as Hb2.
  assert (Hn : 1 <= len rs).
  { destruct rs; [congruence|]. lens. pose proof (len_nonneg rs). lia. }
  pose proof Ho1 as Ho1'. pose proof Ho2 as Ho2'.
  apply occursAt_nat in Ho1'. destruct Ho1' as [Hk1 Hocc1].
  apply occursAt_nat in Ho2'. destruct Ho2' as [Hk2 Hocc2].
  pose proof (table_bounds rendered k2 (k2 + len rs) ltac:(lia) Hb2)
    as (Hlo & Hbs & Hbe & _).
  pose proof (table_bounds rendered k1 k2 ltac:(lia) ltac:(lia))
    as (_ & _ & _ & Hlt).
  split; [|apply Hlt; lia].
  cbv zeta in Hlo, Hbs, Hbe.
  destruct (search_after rs (fst (printableRunesAndOffsets rendered))
                         (Z.to_nat k1) (Z.to_nat k2) Hrs Hne Hps Hocc1)
    as (HA & HB & HC & HD & HE & HF & HG); try assumption.
  { intros j Hj H. apply (Hf1 (Z.of_nat j)); [lia|].
    apply occursAt_nat. rewrite Nat2Z.id. split; [lia|exact H]. }
  { unfold len in Hle. lia. }
  { intros j Hj H. apply (Hf2 (Z.of_nat j)); [unfold len; lia|].
    apply occursAt_nat. rewrite Nat2Z.id. split; [lia|exact H]. }
  unfold highlightFocusedLink.
  replace ((1 <? 0) || (len (l0 :: l1 :: rest) <=? 1)) with false.
  2:{ symmetry. apply orb_false_intro; [reflexivity|].
      apply Z.leb_gt. lens. pose proof (len_nonneg rest). lia. }
  destruct (printableRunesAndOffsets rendered) as [runes offsets] eqn:Heq.
  cbn [fst snd] in *.
  replace (len runes =? 0) with false by (symmetry; apply Z.eqb_neq; lia).
  pose proof (stringOfRunes_nonempty rs Hrs Hne) as [HLne HLlen].
  (* the first link *)
  destruct (spanLoop_found rendered (utf8.stringOfRunes runes) offsets
                           l0 (l1 :: rest) 0) as (sp0 & Hsp0 & _).
  { rewrite Hl0. exact HLne. }
  { pose proof (len_nonneg
                  (utf8.stringOfRunes
                     (firstn (Z.to_nat k1 + length rs) runes))).
    lia. }
  { rewrite Hl0, HA. apply len_nonneg. }
  rewrite Hsp0. clear Hsp0. rewrite Hl0, HA, HB.
  (* the second link *)
  destruct (spanLoop_found rendered (utf8.stringOfRunes runes) offsets
                           l1 rest
                           (len (utf8.stringOfRunes
                                   (firstn (Z.to_nat k1 + length rs) runes))))
    as (sp1 & Hsp1 & Hok).
  { rewrite Hl1. exact HLne. }
  { exact HC. }
  { rewrite Hl1, HD. lia. }
  rewrite Hsp1. clear Hsp1. rewrite Hl1, HD in Hok.
  replace (len (utf8.stringOfRunes (firstn (Z.to_nat k1 + length rs) runes))
           + (len (utf8.stringOfRunes (firstn (Z.to_nat k2) runes))
              - len (utf8.stringOfRunes
                       (firstn (Z.to_nat k1 + length rs) runes))))
    with (len (utf8.stringOfRunes (firstn (Z.to_nat k2) runes))) in Hok by lia.
  rewrite HF, HG in Hok.
  replace (Z.of_nat (Z.to_nat k2)) with k2 in Hok by lia.
  fold (len rs) in Hok.
  rewrite Hok by lia.
  cbn [nth Z.to_nat Pos.to_nat Pos.iter_op Nat.add ok negb start end_].
  reflexivity.
Qed.

(** C3, as the claim has it, fails when the two occurrences overlap: in
    the printable stream [aaa] the label [aa] occurs at runes 0 and 1, the
    search for the second link starts at byte 2, after the first match,
    finds nothing, and the text is returned without any marker. *)
Lemma highlight_overlapping_occurrences :
  let aa := {| Href := []; Path := []; Fragment := []; Label := bytes "aa";
               ResolvedPath := []; ResolvedNote := [] |} in
  fst (printableRunesAndOffsets (bytes "aaa")) = [97; 97; 97]
  /\ slice [97; 97; 97] 0 2 = [97; 97]
  /\ slice [97; 97; 97] 1 3 = [97; 97]
  /\ utf8.stringOfRunes [97; 97] = strings.TrimSpace (Label aa)
  /\ linkSpans (bytes "aaa") [aa; aa]
     = [ {| start := 0; end_ := 2; ok := true |}; noSpan ]
  /\ highlightFocusedLink (bytes "aaa") [aa; aa] 1 = bytes "aaa"
  /\ highlightFocusedLink (bytes "aaa") [aa; aa] 1 <> wrap (bytes "aaa") 1 3.
Proof. vm_compute. repeat split. discriminate. Qed.

Lemma highlight_second_occurrence_witness :
  let here := {| Href := []; Path := []; Fragment := []; Label := bytes " here ";
                 ResolvedPath := []; ResolvedNote := [] |} in
  let rendered :=
    bytes "here" ++ ESC :: bytes "[0m " ++ ESC :: bytes "[1mhere" in
  (strings.TrimSpace (Label here) = utf8.stringOfRunes [104; 101; 114; 101]
   /\ fst (printableRunesAndOffsets rendered)
      = [104; 101; 114; 101; 32; 104; 101; 114; 101])
  /\ highlightFocusedLink rendered [here; here] 1
     = bytes "here" ++ ESC :: bytes "[0m " ++ ESC :: bytes "[1m"
       ++ reverseOn ++ bytes "here" ++ reverseOff.
Proof.
  cbv zeta. split; [split; reflexivity|].
  refine (eq_trans
            (proj1 (highlight_second_occurrence
                      (bytes "here" ++ ESC :: bytes "[0m " ++ ESC :: bytes "[1mhere")
                      {| Href := []; Path := []; Fragment := [];
                         Label := bytes " here ";
                         ResolvedPath := []; ResolvedNote := [] |}
                      {| Href := []; Path := []; Fragment := [];
                         Label := bytes " here ";
                         ResolvedPath := []; ResolvedNote := [] |}
                      [] [104; 101; 114; 101] 0 5
                      eq_refl eq_refl _ _ _ _ _ _ _))
            eq_refl).
  - discriminate.
  - repeat constructor.
  - split; [lia|reflexivity].
  - intros j Hj. lia.
  - vm_compute. discriminate.
  - split; [lia|reflexivity].
  - intros j Hj [_ H].
    assert (j = 4) by (unfold len in Hj; cbn [length] in Hj; lia). subst j.
    vm_compute in H. discriminate.
Defined.

(** ** The resolver and the highlighter on the samples *)

(** The destinations that [TestFollowableLinksForDocument_CommonFormatsAndSafety]
    expects in the registry resolve to their files: the plain relative
    path, the path with a fragment, the angle-bracket form, the
    percent-encoded name, the [.markdown] extension, and paths through
    [..] that stay under the root. *)
Example sample_followable :
  map sample.resolve
    [ "docs/target.md"; "docs/target.md#section"; "<docs/target.md>";
      "docs/SPACE%20NAME.md"; "docs/target.markdown";
      "./docs/../docs/target.md"; "../root/docs/target.md" ]%string
  = [ ("/root/docs/target.md", true, None);
      ("/root/docs/target.md", true, None);
      ("/root/docs/target.md", true, None);
      ("/root/docs/SPACE NAME.md", true, None);
      ("/root/docs/target.markdown", true, None);
      ("/root/docs/target.md", true, None);
      ("/root/docs/target.md", true, None) ]%string.
Proof. vm_compute. reflexivity. Qed.

(** The destinations the same test expects to be left out are rejected
    without an error: a URL, a mail address, another extension, a missing
    file, a directory, the three absolute forms, a [..] path that leaves
    the root and a path through a symlink that points outside it. *)
Example sample_not_followable :
  Forall (fun href => sample.resolve href = (EmptyString, false, None))
    [ "https://example.com/docs/target.md"; "mailto:test@example.com";
      "docs/target.txt"; "docs/missing.md"; "docs/dir.md"; "/etc/passwd";
      "C:\Windows\system32\a.md"; "\\server\share\a.md";
      "../outside/outside.md"; "escape/outside.md" ]%string.
Proof. repeat (constructor; [vm_compute; reflexivity|]). constructor. Qed.

(** The registry of a document: one link for [docTarget]; none for
    [docEscapes], whose links leave the root, have an empty label or are
    images. *)
Example sample_registries :
  followableLinksForDocument (E := sample.world) (bytes "/root")
    (bytes "/root/current.md") sample.docTarget
  = ([samplePager.target], None)
  /\ followableLinksForDocument (E := sample.world) (bytes "/root")
       (bytes "/root/current.md") sample.docEscapes
     = ([], None).
Proof. split; vm_compute; reflexivity. Qed.

(** A bold label: the table of the rendered text, its escape sequences,
    and the highlighted text, in which the end marker stands at the start
    of the printable character that follows the label. *)
Example sample_highlight :
  let rendered := ESC :: bytes "[1mTarget" ++ ESC :: bytes "[0m x" in
  printableRunesAndOffsets rendered
  = ([84; 97; 114; 103; 101; 116; 32; 120], [4; 5; 6; 7; 8; 9; 14; 15; 16])
  /\ escapeSequences rendered = [(0, 4); (10, 14)]
  /\ highlightFocusedLink rendered [samplePager.target] 0
     = ESC :: bytes "[1m" ++ reverseOn ++ bytes "Target"
       ++ ESC :: bytes "[0m" ++ reverseOff ++ bytes " x".
Proof. cbv zeta. repeat split; vm_compute; reflexivity. Qed.
